(** * Controlino protocol: framing, decoding and command encoding

    A shallow embedding of
    [instrumentino/communication/controlino_protocol.py]
    (class [ControlinoProtocol]) together with the small part of the
    [construct] 2.8 parsing combinators the class is built from
    ([Struct], [Const], [Enum], [Int8ub] .. [Int64ub], [Prefixed],
    [PrefixedArray], [Union], [GreedyString]).

    A Python [bytearray] is a [list byte]; Python integers are [Z];
    a decoded [str] is its list of Unicode code points.  A parser
    ([Construct A]) consumes a prefix of the stream and either yields a
    value and the rest of the stream or raises. *)

From Stdlib Require Import List ZArith NArith Bool Lia String Ascii.
From Stdlib Require Import Strings.Byte.
From Stdlib Require Import DecimalString.
Import ListNotations.

Local Open Scope Z_scope.

(** ** Exceptions and results *)

(** The exceptions the parsers can raise: [construct]'s [FieldError]
    (the stream is too short), [ConstError], [MappingError] and
    [RangeError], and Python's [UnicodeDecodeError] and [AttributeError]
    (an attribute looked up on [None]). *)
Inductive Exception : Type :=
| FieldError
| ConstError
| MappingError
| RangeError
| UnicodeDecodeError
| AttributeError.

Inductive Result (A : Type) : Type :=
| Ok (a : A)
| Raise (e : Exception).

Arguments Ok {A} a.
Arguments Raise {A} e.

Definition Construct (A : Type) : Type := list byte -> Result (A * list byte).

Definition ret {A} (a : A) : Construct A := fun s => Ok (a, s).

Definition raise {A} (e : Exception) : Construct A := fun _ => Raise e.

Definition bind {A B} (c : Construct A) (k : A -> Construct B) : Construct B :=
  fun s =>
    match c s with
    | Ok (a, s') => k a s'
    | Raise e => Raise e
    end.

Declare Scope construct_scope.
Delimit Scope construct_scope with construct.
Notation "x <- c ;; k" := (bind c (fun x => k))
  (at level 61, c at next level, right associativity) : construct_scope.
Local Open Scope construct_scope.

(** [con.parse(data)]: run the parser on [data]; bytes left over after the
    format is satisfied are ignored. *)
Definition parse {A} (c : Construct A) (data : list byte) : Result A :=
  match c data with
  | Ok (a, _) => Ok a
  | Raise e => Raise e
  end.

(** ** Byte sequences *)

Definition byte_val (b : byte) : Z := Z.of_N (Byte.to_N b).

Definition len (s : list byte) : Z := Z.of_nat (List.length s).

(** Python slice [s[i:j]] for non-negative [i], [j]. *)
Definition slice (s : list byte) (i j : Z) : list byte :=
  firstn (Z.to_nat (j - i)) (skipn (Z.to_nat i) s).

(** Python slice deletion [s[:j] = []] for non-negative [j]. *)
Definition del_prefix (s : list byte) (j : Z) : list byte :=
  skipn (Z.to_nat j) s.

Fixpoint startswith (s sub : list byte) {struct sub} : bool :=
  match sub, s with
  | [], _ => true
  | _ :: _, [] => false
  | x :: sub', y :: s' => Byte.eqb x y && startswith s' sub'
  end.

Fixpoint find_from (i : Z) (s sub : list byte) : Z :=
  if startswith s sub then i
  else
    match s with
    | [] => -1
    | _ :: s' => find_from (i + 1) s' sub
    end.

(** [bytearray.find(sub)]: index of the first occurrence, or -1. *)
Definition find (s sub : list byte) : Z := find_from 0 s sub.

(** ** The construct combinators used by the protocol *)

Definition read_stream (n : nat) : Construct (list byte) :=
  fun s =>
    if (List.length s <? n)%nat then Raise FieldError
    else Ok (firstn n s, skipn n s).

(** Big-endian unsigned value of a byte string. *)
Definition be_uint (bs : list byte) : Z :=
  fold_left (fun acc b => acc * 256 + byte_val b) bs 0.

Definition FormatField (width : nat) : Construct Z :=
  bs <- read_stream width ;; ret (be_uint bs).

Definition Int8ub : Construct Z := FormatField 1.
Definition Int16ub : Construct Z := FormatField 2.
Definition Int32ub : Construct Z := FormatField 4.
Definition Int64ub : Construct Z := FormatField 8.

Definition bytes_eqb (a b : list byte) : bool :=
  (List.length a =? List.length b)%nat && startswith a b.

Definition Const (value : list byte) : Construct (list byte) :=
  bs <- read_stream (List.length value) ;;
  if bytes_eqb bs value then ret bs else raise ConstError.

(** [Enum(subcon, **mapping)] without a [default]: the parsed number is
    replaced by its name, and a number with no name raises. *)
Definition Enum (subcon : Construct Z) (mapping : list (string * Z))
  : Construct string :=
  v <- subcon ;;
  match List.find (fun kv => snd kv =? v) mapping with
  | Some (name, _) => ret name
  | None => raise MappingError
  end.

(** [subcon[:]]: parse elements until one fails, then rewind to the end of
    the last complete element.  Every element consumes at least one byte,
    so [length s] rounds are enough. *)
Fixpoint Range_loop {A} (rounds : nat) (subcon : Construct A) (s : list byte)
  : list A * list byte :=
  match rounds with
  | O => ([], s)
  | S rounds' =>
      match subcon s with
      | Raise _ => ([], s)
      | Ok (x, s') =>
          let (xs, s'') := Range_loop rounds' subcon s' in (x :: xs, s'')
      end
  end.

Definition GreedyRange {A} (subcon : Construct A) : Construct (list A) :=
  fun s => Ok (Range_loop (List.length s) subcon s).

(** [subcon[count]]: exactly [count] elements. *)
Fixpoint Array {A} (count : nat) (subcon : Construct A) : Construct (list A) :=
  match count with
  | O => ret []
  | S count' =>
      fun s =>
        match subcon s with
        | Raise _ => Raise RangeError
        | Ok (x, s') => (xs <- Array count' subcon ;; ret (x :: xs)) s'
        end
  end.

Definition PrefixedArray {A} (lengthfield : Construct Z) (subcon : Construct A)
  : Construct (list A) :=
  count <- lengthfield ;; Array (Z.to_nat count) subcon.

(** [Prefixed(lengthfield, subcon)]: read the length, read that many bytes,
    and parse [subcon] on those bytes only. *)
Definition Prefixed {A} (lengthfield : Construct Z) (subcon : Construct A)
  : Construct A :=
  length <- lengthfield ;;
  data <- read_stream (Z.to_nat length) ;;
  match parse subcon data with
  | Ok a => ret a
  | Raise e => raise e
  end.

(** [Peek(subcon)]: parse without moving the stream; a failure inside is
    swallowed and yields [None]. *)
Definition Peek {A} (subcon : Construct A) : Construct (option A) :=
  fun s =>
    match subcon s with
    | Ok (a, _) => Ok (Some a, s)
    | Raise _ => Ok (None, s)
    end.

(** ** Text *)

(** A Python [str]: the sequence of its code points. *)
Definition str : Type := list Z.

Definition str_of_string (s : string) : str :=
  List.map (fun c => Z.of_N (N_of_ascii c)) (list_ascii_of_string s).

Definition in_range (lo hi n : Z) : bool := (lo <=? n) && (n <=? hi).

Definition continuation (n : Z) : bool := in_range 0x80 0xBF n.

(** Admissible second byte after a three-byte lead (no overlong forms, no
    surrogates). *)
Definition second_of_three (lead n : Z) : bool :=
  if lead =? 0xE0 then in_range 0xA0 0xBF n
  else if lead =? 0xED then in_range 0x80 0x9F n
  else continuation n.

(** Admissible second byte after a four-byte lead (no overlong forms,
    nothing above U+10FFFF). *)
Definition second_of_four (lead n : Z) : bool :=
  if lead =? 0xF0 then in_range 0x90 0xBF n
  else if lead =? 0xF4 then in_range 0x80 0x8F n
  else continuation n.

Definition push (c : Z) (r : Result str) : Result str :=
  match r with
  | Ok cs => Ok (c :: cs)
  | Raise e => Raise e
  end.

(** [bytes.decode('utf8')] with the default strict error handling. *)
Fixpoint utf8_decode (bs : list byte) : Result str :=
  match bs with
  | [] => Ok []
  | b0 :: t0 =>
      let n0 := byte_val b0 in
      if n0 <? 0x80 then push n0 (utf8_decode t0)
      else
        match t0 with
        | [] => Raise UnicodeDecodeError
        | b1 :: t1 =>
            let n1 := byte_val b1 in
            if in_range 0xC2 0xDF n0 then
              if continuation n1
              then push ((n0 - 0xC0) * 64 + (n1 - 0x80)) (utf8_decode t1)
              else Raise UnicodeDecodeError
            else
              match t1 with
              | [] => Raise UnicodeDecodeError
              | b2 :: t2 =>
                  let n2 := byte_val b2 in
                  if in_range 0xE0 0xEF n0 then
                    if second_of_three n0 n1 && continuation n2
                    then push ((n0 - 0xE0) * 4096 + (n1 - 0x80) * 64
                               + (n2 - 0x80)) (utf8_decode t2)
                    else Raise UnicodeDecodeError
                  else
                    match t2 with
                    | [] => Raise UnicodeDecodeError
                    | b3 :: t3 =>
                        let n3 := byte_val b3 in
                        if in_range 0xF0 0xF4 n0 && second_of_four n0 n1
                           && continuation n2 && continuation n3
                        then push ((n0 - 0xF0) * 262144 + (n1 - 0x80) * 4096
                                   + (n2 - 0x80) * 64 + (n3 - 0x80))
                                  (utf8_decode t3)
                        else Raise UnicodeDecodeError
                    end
              end
        end
  end.

(** [GreedyString('utf8')]: all the remaining bytes, decoded. *)
Definition GreedyString : Construct str :=
  fun s =>
    match utf8_decode s with
    | Ok text => Ok (text, [])
    | Raise e => Raise e
    end.

(** ** Packet formats *)

Definition CONST_HEADER : list byte := [xa5; xa5; xa5; xa5].

Definition incoming_packet_types : list (string * Z) :=
  [("DATA_PACKET"%string, 0); ("STRING_PACKET"%string, 1)].

Record PacketHeader : Type := {
  const_header : list byte;
  type : string;
  packet_length : Z
}.

Definition packet_header_format : Construct PacketHeader :=
  const_header <- Const CONST_HEADER ;;
  type <- Enum Int8ub incoming_packet_types ;;
  packet_length <- Int16ub ;;
  ret {| const_header := const_header; type := type;
         packet_length := packet_length |}.

(** [packet_header_format.sizeof()]: the sum of the sizes of its fields. *)
Definition packet_header_format_sizeof : Z := len CONST_HEADER + 1 + 2.

(** The [Union] of a data block: the same bytes read at the four widths. *)
Record DataUnion : Type := {
  Int8 : option (list Z);
  Int16 : option (list Z);
  Int32 : option (list Z);
  Int64 : option (list Z)
}.

(** [Union(Int8=.., Int16=.., Int32=.., Int64=.., parsefrom='Int8')]: every
    member is peeked at the same position, then the stream is advanced by
    parsing the member named by [parsefrom]. *)
Definition data_union_format : Construct DataUnion :=
  i8 <- Peek (Prefixed Int16ub (GreedyRange Int8ub)) ;;
  i16 <- Peek (Prefixed Int16ub (GreedyRange Int16ub)) ;;
  i32 <- Peek (Prefixed Int16ub (GreedyRange Int32ub)) ;;
  i64 <- Peek (Prefixed Int16ub (GreedyRange Int64ub)) ;;
  _ <- Prefixed Int16ub (GreedyRange Int8ub) ;;
  ret {| Int8 := i8; Int16 := i16; Int32 := i32; Int64 := i64 |}.

Record DataBlock : Type := {
  block_id : Z;
  data : DataUnion
}.

Definition data_packet_data_block_format : Construct DataBlock :=
  block_id <- Int8ub ;;
  data <- data_union_format ;;
  ret {| block_id := block_id; data := data |}.

Record DataPacket : Type := {
  data_packet_header_of : PacketHeader;
  relative_start_timestamp : Z;
  data_blocks : list DataBlock
}.

Definition data_packet_header_format : Construct Z := Int32ub.

Definition data_packet_format : Construct DataPacket :=
  packet_header <- packet_header_format ;;
  data_packet_header <- data_packet_header_format ;;
  data_blocks <- PrefixedArray Int8ub data_packet_data_block_format ;;
  ret {| data_packet_header_of := packet_header;
         relative_start_timestamp := data_packet_header;
         data_blocks := data_blocks |}.

Record StringPacket : Type := {
  string_packet_header_of : PacketHeader;
  string_of : str
}.

Definition string_packet_format : Construct StringPacket :=
  packet_header <- packet_header_format ;;
  text <- GreedyString ;;
  ret {| string_packet_header_of := packet_header; string_of := text |}.

(** ** The protocol object and its collaborators *)

(** What [handle_incoming_bytes] reads and writes: the [bytearray] it is
    handed (mutated in place), the class-level [string_packets_queue]
    (oldest entry first), and the calls it makes on the controller
    ([update_input_channels], in call order, and [disconnect]). *)
Record State : Type := {
  incoming_bytes : list byte;
  string_packets_queue : list StringPacket;
  input_channel_updates : list DataPacket;
  disconnects : nat
}.

Definition set_incoming_bytes (st : State) (bs : list byte) : State :=
  {| incoming_bytes := bs;
     string_packets_queue := string_packets_queue st;
     input_channel_updates := input_channel_updates st;
     disconnects := disconnects st |}.

(** [self.controller.update_input_channels(packet)] *)
Definition update_input_channels (st : State) (p : DataPacket) : State :=
  {| incoming_bytes := incoming_bytes st;
     string_packets_queue := string_packets_queue st;
     input_channel_updates := input_channel_updates st ++ [p];
     disconnects := disconnects st |}.

(** [self.controller.disconnect()] *)
Definition disconnect (st : State) : State :=
  {| incoming_bytes := incoming_bytes st;
     string_packets_queue := string_packets_queue st;
     input_channel_updates := input_channel_updates st;
     disconnects := S (disconnects st) |}.

(** [queue.Queue(maxsize=10)] *)
Definition string_packets_queue_maxsize : nat := 10.

(** [self.string_packets_queue.put(packet)]: [None] when the queue is full,
    where [put] waits for a free slot. *)
Definition queue_put (st : State) (p : StringPacket) : option State :=
  if (List.length (string_packets_queue st) <? string_packets_queue_maxsize)%nat
  then Some {| incoming_bytes := incoming_bytes st;
               string_packets_queue := string_packets_queue st ++ [p];
               input_channel_updates := input_channel_updates st;
               disconnects := disconnects st |}
  else None.

(** How a call ends: it returns, an exception leaves it, or it waits inside
    [put] on a full queue. *)
Inductive Outcome : Type :=
| Returned
| Raised (e : Exception)
| Blocked.

(** One pass through the body of [while True]. *)
Inductive Step : Type :=
| Exit (o : Outcome) (st : State)
| Continue (st : State).

(** ** handle_incoming_bytes *)

Definition loop_body (st : State) : Step :=
  let packet_start := find (incoming_bytes st) CONST_HEADER in
  if packet_start =? -1 then
    (* Delete garbage incoming data *)
    Exit Returned (set_incoming_bytes st [])
  else
    (* Delete bytes before the current packet *)
    let st := set_incoming_bytes st (del_prefix (incoming_bytes st) packet_start) in
    if len (incoming_bytes st) <? packet_header_format_sizeof then
      Exit Returned st
    else
      match parse packet_header_format (incoming_bytes st) with
      | Raise e => Exit (Raised e) st
      | Ok packet_header =>
          let packet_end := packet_start + packet_length packet_header in
          if len (incoming_bytes st) <? packet_end then Exit Returned st
          else
            let packet := slice (incoming_bytes st) packet_start packet_end in
            let st := set_incoming_bytes st
                        (del_prefix (incoming_bytes st) packet_end) in
            if String.eqb (type packet_header) "DATA_PACKET" then
              match parse data_packet_format packet with
              | Raise e => Exit (Raised e) st
              | Ok p => Continue (update_input_channels st p)
              end
            else if String.eqb (type packet_header) "STRING_PACKET" then
              match parse string_packet_format packet with
              | Raise e => Exit (Raised e) st
              | Ok p =>
                  match queue_put st p with
                  | Some st' => Continue st'
                  | None => Exit Blocked st
                  end
              end
            else
              (* Delete unrecognized incoming packet *)
              Continue (set_incoming_bytes st
                          (del_prefix (incoming_bytes st) packet_end))
      end.

(** [while True: ...] run for at most [fuel] passes; [None] when the passes
    are used up before the loop is left. *)
Fixpoint while_true (fuel : nat) (st : State) : option (Outcome * State) :=
  match fuel with
  | O => None
  | S fuel' =>
      match loop_body st with
      | Exit o st' => Some (o, st')
      | Continue st' => while_true fuel' st'
      end
  end.

(** [handle_incoming_bytes(self, incoming_bytes)], with
    [self.controller.comm_port.MAX_BYTES_PER_READ] as a parameter.  The
    [DEBUG_RX] print does not touch the state. *)
Definition handle_incoming_bytes_fuel (fuel : nat) (MAX_BYTES_PER_READ : Z)
  (st : State) : option (Outcome * State) :=
  let st := if MAX_BYTES_PER_READ <? len (incoming_bytes st)
            then disconnect st else st in
  while_true fuel st.

Definition handle_incoming_bytes (MAX_BYTES_PER_READ : Z) (st : State)
  : option (Outcome * State) :=
  handle_incoming_bytes_fuel (S (List.length (incoming_bytes st)))
    MAX_BYTES_PER_READ st.

(** Modelled from the spec: the transport that owns the connection's buffer
    is not part of this file.  The specification has it append each chunk
    it reads to the buffer, which keeps the bytes the previous call left
    in it, and then call [handle_incoming_bytes] on that buffer. *)
Definition feed (MAX_BYTES_PER_READ : Z) (st : State) (chunk : list byte)
  : option (Outcome * State) :=
  handle_incoming_bytes MAX_BYTES_PER_READ
    (set_incoming_bytes st (incoming_bytes st ++ chunk)).

(** Chunks fed one after the other; a call that does not return ends the
    run. *)
Fixpoint feed_all (MAX_BYTES_PER_READ : Z) (st : State)
  (chunks : list (list byte)) : option (Outcome * State) :=
  match chunks with
  | [] => Some (Returned, st)
  | chunk :: chunks' =>
      match feed MAX_BYTES_PER_READ st chunk with
      | Some (Returned, st') => feed_all MAX_BYTES_PER_READ st' chunks'
      | other => other
      end
  end.

(** A protocol object that has not received anything yet. *)
Definition fresh (bs : list byte) : State :=
  {| incoming_bytes := bs; string_packets_queue := [];
     input_channel_updates := []; disconnects := 0 |}.

(** ** Data blocks as the specification words them *)

(** The bytes of [payload] grouped [width] at a time and read as big-endian
    unsigned integers; bytes left after the last whole group are not
    used. *)
Definition grouped (width : nat) (payload : list byte) : list Z :=
  List.map (fun i => be_uint (firstn width (skipn (i * width) payload)))
           (seq 0 (List.length payload / width)).

Definition members (d : DataUnion) : list (option (list Z)) :=
  [Int8 d; Int16 d; Int32 d; Int64 d].

(** The specification's data block: one list of values, which are the
    prefixed bytes read at the one element width the block declares. *)
Definition values_at_one_width (payload : list byte) (d : DataUnion) : Prop :=
  exists width : nat,
    In width [1%nat; 2%nat; 4%nat; 8%nat] /\
    (forall values, In (Some values) (members d) ->
                    values = grouped width payload).

(** ** Outgoing commands *)

Definition CMD_PING : string := "PING".

Definition STRING_PACKET_TYPE_PONG : str := str_of_string "PONG".

(** A command parameter: callers pass strings and numbers. *)
Inductive PyValue : Type :=
| PyStr (s : string)
| PyInt (n : Z).

(** ['{}'.format(x)] *)
Definition format (x : PyValue) : string :=
  match x with
  | PyStr s => s
  | PyInt n => NilZero.string_of_int (Z.to_int n)
  end.

(** ['\r'] *)
Definition CR : string := String (ascii_of_nat 13) EmptyString.

Definition build_command_packet (command : string) (parameters : list PyValue)
  : string :=
  (String.concat " " (List.map format (PyStr command :: parameters)) ++ CR)%string.

(** ** ping *)

(** What [ping] touches: the controller's [comm_port] ([None], or the
    packets handed to [comm_port.transmit] so far) and the queue of string
    packets. *)
Record Link : Type := {
  comm_port : option (list string);
  replies : list StringPacket
}.

(** [transmit(self, packet)] *)
Definition transmit (l : Link) (packet : string) : Link :=
  match comm_port l with
  | Some sent => {| comm_port := Some (sent ++ [packet]); replies := replies l |}
  | None => l
  end.

(** [Queue.get(timeout=...)]: the oldest entry, or [None] for the
    [queue.Empty] raised when the wait times out. *)
Definition queue_get (q : list StringPacket)
  : option (StringPacket * list StringPacket) :=
  match q with
  | [] => None
  | p :: q' => Some (p, q')
  end.

(** [reply_packet.search('string')]: the first entry whose key matches;
    none of the keys of the nested header does. *)
Definition search_string (p : StringPacket) : str := string_of p.

Definition str_eqb (a b : str) : bool :=
  (List.length a =? List.length b)%nat
  && forallb (fun xy => fst xy =? snd xy) (combine a b).

(** [ping(self)].  [receive] is the environment: what
    [comm_port.receive()] and the decode loop have put on the queue by the
    time [get] returns or its timeout of [1 / DEFAULT_DATA_PACKET_RATE * 2]
    seconds expires.  [task_done] only does the queue's bookkeeping. *)
Definition ping (receive : list StringPacket -> list StringPacket) (l : Link)
  : Result bool * Link :=
  let packet := build_command_packet CMD_PING [] in
  let l := transmit l packet in
  match comm_port l with
  | None => (Raise AttributeError, l)
  | Some _ =>
      match queue_get (receive (replies l)) with
      | None =>
          (* The reply didn't arrive in time *)
          (Ok false, {| comm_port := comm_port l; replies := [] |})
      | Some (reply_packet, q') =>
          let reply_string := search_string reply_packet in
          (Ok (str_eqb reply_string STRING_PACKET_TYPE_PONG),
           {| comm_port := comm_port l; replies := q' |})
      end
  end.

(** ** Channel commands *)

Definition CMD_ACQUIRE_START : string := "ACQUIRE:START".
Definition CMD_ACQUIRE_STOP : string := "ACQUIRE:STOP".
Definition CMD_CHANNEL_DIRECTION : string := "CH:DIR".
Definition CHANNEL_DIRECTION_IN : string := "IN".
Definition CHANNEL_DIRECTION_OUT : string := "OUT".
Definition CMD_CHANNEL_REGISTER : string := "CH:REGISTER".
Definition CMD_CHANNEL_WRITE : string := "CH:WRITE".

(** What the commands use of a channel: [channel.get_identifier()] and
    [str(channel.sampling_rate)], the rate as Python prints it. *)
Record Channel : Type := {
  get_identifier : PyValue;
  sampling_rate_str : string
}.

Definition register_input_channel (l : Link) (channel : Channel) : Link :=
  let packet := build_command_packet CMD_CHANNEL_REGISTER
                  [get_identifier channel; PyStr (sampling_rate_str channel)] in
  transmit l packet.

Definition set_channel_direction (l : Link) (channel : Channel)
  (is_output : bool) : Link :=
  let packet := build_command_packet CMD_CHANNEL_DIRECTION
                  [get_identifier channel;
                   PyStr (if is_output then CHANNEL_DIRECTION_OUT
                          else CHANNEL_DIRECTION_IN)] in
  transmit l packet.

Definition write_to_channel (l : Link) (channel : Channel)
  (values : list PyValue) : Link :=
  let packet := build_command_packet CMD_CHANNEL_WRITE
                  (get_identifier channel :: values) in
  transmit l packet.

Definition start_acquiring_data (l : Link) : Link :=
  let packet := build_command_packet CMD_ACQUIRE_START [] in
  transmit l packet.

(** ** What a buffer of whole packets decodes to *)

(** What is dispatched for a packet: a data packet for the controller or a
    string packet for the queue. *)
Inductive Decoded : Type :=
| DecodedData (p : DataPacket)
| DecodedString (p : StringPacket).

(** [packet] is a whole packet of the kind its header names: it parses with
    the format of that kind, and the length it declares is its length. *)
Definition decodes_to (packet : list byte) (d : Decoded) : Prop :=
  match d with
  | DecodedData p =>
      parse data_packet_format packet = Ok p
      /\ type (data_packet_header_of p) = "DATA_PACKET"%string
      /\ packet_length (data_packet_header_of p) = len packet
  | DecodedString p =>
      parse string_packet_format packet = Ok p
      /\ type (string_packet_header_of p) = "STRING_PACKET"%string
      /\ packet_length (string_packet_header_of p) = len packet
  end.

Fixpoint data_of (ds : list Decoded) : list DataPacket :=
  match ds with
  | [] => []
  | DecodedData p :: ds' => p :: data_of ds'
  | DecodedString _ :: ds' => data_of ds'
  end.

Fixpoint strings_of (ds : list Decoded) : list StringPacket :=
  match ds with
  | [] => []
  | DecodedData _ :: ds' => strings_of ds'
  | DecodedString p :: ds' => p :: strings_of ds'
  end.

(** The state a call leaves when it has dispatched [ds] and used up the
    buffer. *)
Definition after_dispatch (st : State) (ds : list Decoded) : State :=
  {| incoming_bytes := [];
     string_packets_queue := string_packets_queue st ++ strings_of ds;
     input_channel_updates := input_channel_updates st ++ data_of ds;
     disconnects := disconnects st |}.

(** A parser that does not look at the end of the stream: bytes appended
    to a stream it accepts are left over, and the result is the same. *)
Definition extends {A : Type} (c : Construct A) : Prop :=
  forall s a r extra, c s = Ok (a, r) -> c (s ++ extra) = Ok (a, r ++ extra).

(** [st'] comes from [st] by deleting bytes at the front of the buffer and
    by appending to the queue and to the controller's updates. *)
Definition advances (st st' : State) : Prop :=
  (exists gone, incoming_bytes st = gone ++ incoming_bytes st')
  /\ (exists put, string_packets_queue st'
                  = string_packets_queue st ++ put)
  /\ (exists updates, input_channel_updates st'
                      = input_channel_updates st ++ updates)
  /\ disconnects st' = disconnects st.

(** A complete STRING packet whose body is the text PONG: the marker, type
    1, total length 11, and the four letters. *)
Definition pong_bytes : list byte :=
  [xa5; xa5; xa5; xa5; x01; x00; x0b; x50; x4f; x4e; x47].

Definition pong_packet : StringPacket :=
  {| string_packet_header_of :=
       {| const_header := CONST_HEADER; type := "STRING_PACKET";
          packet_length := 11 |};
     string_of := STRING_PACKET_TYPE_PONG |}.

(** The sixteen bytes of the specification's DATA example, which declare
    a total length of 10 (00 0A). *)
Definition data_example_declaring_10 : list byte :=
  [xa5; xa5; xa5; xa5; x00; x00; x0a;
   x00; x00; x00; x00; x01; x05; x00; x01; x07].

(** The same packet declaring its sixteen bytes (00 10). *)
Definition data_example_declaring_16 : list byte :=
  [xa5; xa5; xa5; xa5; x00; x00; x10;
   x00; x00; x00; x00; x01; x05; x00; x01; x07].

(** A complete DATA packet of eight bytes: one byte of body, too short for
    the four bytes of the timestamp. *)
Definition short_data_packet : list byte :=
  [xa5; xa5; xa5; xa5; x00; x00; x08; x00].

(** A complete STRING packet of eight bytes whose one byte of body, FF, is
    not UTF-8. *)
Definition bad_utf8_packet : list byte :=
  [xa5; xa5; xa5; xa5; x01; x00; x08; xff].

(** A complete packet of seven bytes whose type byte is 2. *)
Definition type_2_packet : list byte :=
  [xa5; xa5; xa5; xa5; x02; x00; x07].

(** A block with id 5 and a payload of two bytes, 01 02, and what the block
    format makes of it. *)
Definition two_byte_block : list byte := [x05; x00; x02; x01; x02].

Definition two_byte_block_data : DataUnion :=
  {| Int8 := Some [1; 2]; Int16 := Some [258];
     Int32 := Some []; Int64 := Some [] |}.

(** A controller with a comm port that has sent nothing, and the PONG
    packet waiting on the queue. *)
Definition pong_link : Link :=
  {| comm_port := Some []; replies := [pong_packet] |}.

(** Evaluate a call of [handle_incoming_bytes] on a concrete buffer for an
    arbitrary [MAX_BYTES_PER_READ]: split on the overload test, then run. *)
Ltac run_handle :=
  unfold feed, handle_incoming_bytes, handle_incoming_bytes_fuel;
  match goal with
  | |- context [?m <? len ?b] =>
      let n := eval vm_compute in (len b) in
      change (len b) with n; destruct (m <? n)
  end; vm_compute; reflexivity.

(** Take [loop_body] apart along its tests. *)
Ltac loop_body_cases :=
  unfold loop_body; cbv zeta;
  repeat match goal with
         | |- context [if ?c then _ else _] => destruct c eqn:?
         | |- context [match parse ?f ?x with _ => _ end] =>
             destruct (parse f x) eqn:?
         | |- context [match queue_put ?a ?b with _ => _ end] =>
             destruct (queue_put a b) eqn:?
         end.

(** Turn the boolean range tests of the UTF-8 decoder into inequalities. *)
Ltac utf8_bounds :=
  unfold second_of_three, second_of_four, continuation, in_range in *;
  repeat match goal with
         | H : _ && _ = true |- _ => apply andb_true_iff in H as [? ?]
         | H : (if ?c then _ else _) = true |- _ => destruct c eqn:?
         | H : (_ <=? _) = true |- _ => apply Z.leb_le in H
         | H : (_ <? _) = false |- _ => apply Z.ltb_ge in H
         | H : (_ =? _) = true |- _ => apply Z.eqb_eq in H
         | H : (_ =? _) = false |- _ => apply Z.eqb_neq in H
         end.

(** * Properties *)

(** ** Byte sequences and [find] *)

Lemma startswith_app (s sub rest : list byte) :
  startswith s sub = true -> startswith (s ++ rest) sub = true.
Proof.
  revert s; induction sub as [|x sub IH]; intros [|y s]; simpl; try easy.
  intros H; apply andb_true_iff in H as [Hxy Hs].
  now rewrite Hxy, (IH _ Hs).
Qed.

Lemma find_from_lower (i : Z) (s sub : list byte) :
  find_from i s sub = -1 \/ i <= find_from i s sub.
Proof.
  revert i; induction s as [|y s IH]; intros i; cbn [find_from].
  - destruct (startswith [] sub); [right; lia | now left].
  - destruct (startswith (y :: s) sub); [right; lia|].
    destruct (IH (i + 1)) as [H|H]; [now left | right; lia].
Qed.

Lemma find_nonneg (s sub : list byte) :
  find s sub <> -1 -> 0 <= find s sub.
Proof.
  unfold find; intros H; destruct (find_from_lower 0 s sub); [easy | lia].
Qed.

Lemma find_at_start (s sub : list byte) :
  startswith s sub = true -> find s sub = 0.
Proof.
  unfold find; intros H; destruct s; cbn [find_from]; now rewrite H.
Qed.

Lemma len_del_prefix (s : list byte) (j : Z) :
  0 <= j <= len s -> len (del_prefix s j) = len s - j.
Proof.
  unfold len, del_prefix; intros H; rewrite length_skipn; lia.
Qed.

Lemma len_del_prefix_le (s : list byte) (j : Z) :
  len (del_prefix s j) <= len s.
Proof.
  unfold len, del_prefix; rewrite length_skipn; lia.
Qed.

(** ** The header *)

(** A header that parses carries one of the two names of
    [incoming_packet_types]: the last branch of the dispatch in
    [handle_incoming_bytes] is never taken. *)
Lemma header_type_known (s : list byte) (h : PacketHeader) :
  parse packet_header_format s = Ok h ->
  type h = "DATA_PACKET"%string \/ type h = "STRING_PACKET"%string.
Proof.
  unfold parse, packet_header_format, bind.
  destruct (Const CONST_HEADER s) as [[c s1]|]; [|easy].
  unfold Enum, bind.
  destruct (Int8ub s1) as [[v s2]|]; [|easy].
  cbn [List.find incoming_packet_types snd].
  destruct (0 =? v); [|destruct (1 =? v)]; cbn.
  - destruct (Int16ub s2) as [[n s3]|]; [|easy].
    intros [= <-]; now left.
  - destruct (Int16ub s2) as [[n s3]|]; [|easy].
    intros [= <-]; now right.
  - easy.
Qed.

Lemma data_packet_nonempty (packet : list byte) (p : DataPacket) :
  parse data_packet_format packet = Ok p -> packet <> [].
Proof. now intros H ->. Qed.

Lemma string_packet_nonempty (packet : list byte) (p : StringPacket) :
  parse string_packet_format packet = Ok p -> packet <> [].
Proof. now intros H ->. Qed.

Lemma slice_nonempty (s : list byte) (i j : Z) :
  slice s i j <> [] -> i < j.
Proof.
  unfold slice; intros H.
  destruct (Z_lt_le_dec i j) as [|Hle]; [easy|].
  exfalso; apply H.
  replace (Z.to_nat (j - i)) with O by lia; reflexivity.
Qed.

Lemma queue_put_bytes (st st' : State) (p : StringPacket) :
  queue_put st p = Some st' -> incoming_bytes st' = incoming_bytes st.
Proof.
  unfold queue_put.
  destruct (_ <? _)%nat; [|easy]. now intros [= <-].
Qed.

(** ** The decode loop *)

Lemma loop_body_shrinks (st st' : State) :
  loop_body st = Continue st' ->
  len (incoming_bytes st') < len (incoming_bytes st).
Proof.
  unfold loop_body.
  set (bytes := incoming_bytes st).
  set (packet_start := find bytes CONST_HEADER).
  destruct (packet_start =? -1) eqn:Hfound; [easy|].
  apply Z.eqb_neq, find_nonneg in Hfound. fold packet_start in Hfound.
  cbn [incoming_bytes set_incoming_bytes].
  set (buf := del_prefix bytes packet_start).
  pose proof (len_del_prefix_le bytes packet_start) as Hbuf. fold buf in Hbuf.
  destruct (len buf <? packet_header_format_sizeof); [easy|].
  destruct (parse packet_header_format buf) as [h|] eqn:Hh; [|easy].
  set (packet_end := packet_start + packet_length h).
  destruct (len buf <? packet_end) eqn:Hend; [easy|].
  apply Z.ltb_ge in Hend.
  assert (Hcut : slice buf packet_start packet_end <> [] ->
                 len (del_prefix buf packet_end) < len bytes).
  { intros Hne. apply slice_nonempty in Hne.
    rewrite len_del_prefix by lia. lia. }
  destruct (type h =? "DATA_PACKET")%string eqn:Hdata.
  - destruct (parse data_packet_format _) as [p|] eqn:Hp; [|easy].
    intros [= <-]. cbn. now apply Hcut, (data_packet_nonempty _ p).
  - destruct (type h =? "STRING_PACKET")%string eqn:Hstring.
    + destruct (parse string_packet_format _) as [p|] eqn:Hp; [|easy].
      destruct (queue_put _ p) as [st1|] eqn:Hput; [|easy].
      intros [= <-]. rewrite (queue_put_bytes _ _ _ Hput). cbn.
      now apply Hcut, (string_packet_nonempty _ p).
    + apply String.eqb_neq in Hdata, Hstring.
      now destruct (header_type_known _ _ Hh).
Qed.

Lemma while_true_total (fuel : nat) (st : State) :
  (List.length (incoming_bytes st) < fuel)%nat ->
  exists o st', while_true fuel st = Some (o, st').
Proof.
  revert st; induction fuel as [|fuel IH]; intros st Hfuel; [lia|].
  cbn [while_true].
  destruct (loop_body st) as [o st1|st1] eqn:Hbody; [now exists o, st1|].
  apply loop_body_shrinks in Hbody. unfold len in Hbody.
  apply IH. lia.
Qed.


(** A complete packet that declares length 0 does not keep the loop
    running: the empty slice fails to parse and the exception leaves the
    call (DATA and STRING alike). *)
Example zero_length_packet_leaves_loop (MAX_BYTES_PER_READ : Z) :
  option_map fst
    (handle_incoming_bytes MAX_BYTES_PER_READ
       (fresh [xa5; xa5; xa5; xa5; x00; x00; x00]))
  = Some (Raised FieldError)
  /\
  option_map fst
    (handle_incoming_bytes MAX_BYTES_PER_READ
       (fresh [xa5; xa5; xa5; xa5; x01; x00; x00]))
  = Some (Raised FieldError).
Proof. split; run_handle. Qed.

(** C1 fails on the code.  Two bytes FF FF followed by the complete PONG
    packet: the call deletes the two bytes, then adds the stale
    [packet_start] (2) to the declared length (11), finds the buffer (11
    bytes) shorter than that, and returns.  Nothing is put on the queue and
    the packet stays in the buffer.  The same packet without the two bytes
    in front is decoded and queued. *)
Theorem garbage_then_pong_not_decoded (MAX_BYTES_PER_READ : Z) :
  handle_incoming_bytes MAX_BYTES_PER_READ (fresh ([xff; xff] ++ pong_bytes))
  = Some (Returned,
          {| incoming_bytes := pong_bytes;
             string_packets_queue := [];
             input_channel_updates := [];
             disconnects := if MAX_BYTES_PER_READ <? 13 then 1 else 0 |})
  /\
  handle_incoming_bytes MAX_BYTES_PER_READ (fresh pong_bytes)
  = Some (Returned,
          {| incoming_bytes := [];
             string_packets_queue := [pong_packet];
             input_channel_updates := [];
             disconnects := if MAX_BYTES_PER_READ <? 11 then 1 else 0 |}).
Proof. split; run_handle. Qed.

(** C7 fails on the code.  A complete packet of type 2 (seven bytes,
    declared length 7) followed by the complete PONG packet: parsing the
    header raises [MappingError], because [Enum] knows no name for 2.  The
    exception leaves the call: no byte is removed, the second packet is not
    decoded, and the branch that deletes unrecognized packets is not
    reached. *)
Theorem unknown_type_packet_raises (MAX_BYTES_PER_READ : Z) :
  handle_incoming_bytes MAX_BYTES_PER_READ
    (fresh (type_2_packet ++ pong_bytes))
  = Some (Raised MappingError,
          {| incoming_bytes := type_2_packet ++ pong_bytes;
             string_packets_queue := [];
             input_channel_updates := [];
             disconnects := if MAX_BYTES_PER_READ <? 18 then 1 else 0 |}).
Proof. run_handle. Qed.

(** C4 fails on the code.  The PONG packet cut inside its marker: the first
    chunk A5 A5 holds no whole marker and is deleted as garbage, so the
    second chunk no longer starts a packet and is deleted too; nothing is
    queued.  The same eleven bytes in one chunk queue the packet. *)
Theorem split_marker_loses_packet :
  feed_all 64 (fresh [])
    [[xa5; xa5]; [xa5; xa5; x01; x00; x0b; x50; x4f; x4e; x47]]
  = Some (Returned, fresh [])
  /\
  feed_all 64 (fresh [])
    [[xa5; xa5] ++ [xa5; xa5; x01; x00; x0b; x50; x4f; x4e; x47]]
  = Some (Returned,
          {| incoming_bytes := [];
             string_packets_queue := [pong_packet];
             input_channel_updates := [];
             disconnects := 0 |}).
Proof. split; vm_compute; reflexivity. Qed.

(** The stale [packet_start] breaks chunk independence as well: one byte of
    garbage in a chunk of its own is deleted and the packet that follows is
    queued, while the same bytes in one chunk leave the packet undecoded. *)
Example garbage_chunk_then_pong :
  feed_all 64 (fresh []) [[xff]; pong_bytes]
  = Some (Returned,
          {| incoming_bytes := [];
             string_packets_queue := [pong_packet];
             input_channel_updates := [];
             disconnects := 0 |})
  /\
  feed_all 64 (fresh []) [[xff] ++ pong_bytes]
  = Some (Returned, fresh pong_bytes).
Proof. split; vm_compute; reflexivity. Qed.

(** C5 as stated fails.  The header is seven bytes (marker 4, type 1,
    length 2), so a declared length of 10 cuts the packet after three bytes
    of its timestamp: parsing the ten-byte slice raises, no data packet
    reaches the controller, and the last six bytes stay in the buffer. *)
Lemma declared_length_10_raises :
  handle_incoming_bytes 64 (fresh data_example_declaring_10)
  = Some (Raised FieldError,
          {| incoming_bytes := [x00; x01; x05; x00; x01; x07];
             string_packets_queue := [];
             input_channel_updates := [];
             disconnects := 0 |}).
Proof. vm_compute; reflexivity. Qed.

(** C5, amended: with the length field declaring the sixteen bytes of the
    packet (00 10), the buffer decodes to exactly one data packet with
    timestamp 0 and one block with id 5, whose values read one byte at a
    time are [7] (and, read at two, four or eight bytes, none). *)
Theorem data_example_decodes (MAX_BYTES_PER_READ : Z) :
  handle_incoming_bytes MAX_BYTES_PER_READ (fresh data_example_declaring_16)
  = Some (Returned,
          {| incoming_bytes := [];
             string_packets_queue := [];
             input_channel_updates :=
               [{| data_packet_header_of :=
                     {| const_header := CONST_HEADER;
                        type := "DATA_PACKET";
                        packet_length := 16 |};
                   relative_start_timestamp := 0;
                   data_blocks :=
                     [{| block_id := 5;
                         data := {| Int8 := Some [7]; Int16 := Some [];
                                    Int32 := Some []; Int64 := Some [] |} |}]
                |}];
             disconnects := if MAX_BYTES_PER_READ <? 16 then 1 else 0 |}).
Proof. run_handle. Qed.

(** C3 as stated fails: [handle_incoming_bytes] has no handler around its
    parsers.  A complete DATA packet whose body is too short, or a complete
    STRING packet whose body is not UTF-8, is removed from the buffer and
    then the exception leaves the call; the valid PONG packet behind it is
    not decoded in that call. *)
Lemma malformed_packet_exception_propagates :
  handle_incoming_bytes 64 (fresh (short_data_packet ++ pong_bytes))
  = Some (Raised FieldError, fresh pong_bytes)
  /\
  handle_incoming_bytes 64 (fresh (bad_utf8_packet ++ pong_bytes))
  = Some (Raised UnicodeDecodeError, fresh pong_bytes).
Proof. split; vm_compute; reflexivity. Qed.

(** ** A malformed packet at the head of the buffer *)

(** A header that parses starts with the marker and has seven bytes. *)
Arguments byte_val : simpl never.

Lemma header_parse_inv (packet : list byte) (h : PacketHeader) :
  parse packet_header_format packet = Ok h ->
  exists b4 b5 b6 tl, packet = CONST_HEADER ++ b4 :: b5 :: b6 :: tl.
Proof.
  destruct packet as [|b0 [|b1 [|b2 [|b3 packet]]]]; try easy.
  unfold parse, packet_header_format, bind at 1, Const, bind at 1.
  cbn [read_stream List.length CONST_HEADER Nat.ltb Nat.leb firstn skipn].
  destruct (bytes_eqb [b0; b1; b2; b3] CONST_HEADER) eqn:Hmark; [|easy].
  unfold bytes_eqb in Hmark.
  cbn [CONST_HEADER startswith List.length Nat.eqb andb] in Hmark.
  repeat (apply andb_true_iff in Hmark as [?%Byte.byte_dec_bl Hmark]).
  subst.
  destruct packet as [|b4 [|b5 [|b6 tl]]];
    [now cbn | | | now exists b4, b5, b6, tl];
    unfold Enum, bind; cbn;
    destruct (byte_val b4) as [|[q|q|]|q]; now cbn.
Qed.

Lemma header_parse_prefix (b4 b5 b6 : byte) (tl tl' : list byte) :
  parse packet_header_format (CONST_HEADER ++ b4 :: b5 :: b6 :: tl)
  = parse packet_header_format (CONST_HEADER ++ b4 :: b5 :: b6 :: tl').
Proof.
  unfold parse, packet_header_format, Const, Enum, bind.
  cbn.
  destruct (byte_val b4) as [|[q|q|]|q]; reflexivity.
Qed.

Lemma slice_whole_prefix (packet rest : list byte) :
  slice (packet ++ rest) 0 (0 + len packet) = packet.
Proof.
  unfold slice, len. cbn [Z.to_nat skipn].
  replace (Z.to_nat _) with (List.length packet + 0)%nat by lia.
  rewrite firstn_app_2. cbn. apply app_nil_r.
Qed.

Lemma del_whole_prefix (packet rest : list byte) :
  del_prefix (packet ++ rest) (0 + len packet) = rest.
Proof.
  unfold del_prefix, len.
  replace (Z.to_nat _) with (List.length packet) by lia.
  rewrite skipn_app, skipn_all, Nat.sub_diag. reflexivity.
Qed.

Lemma loop_body_malformed (st : State) (packet rest : list byte)
  (h : PacketHeader) (e : Exception) :
  incoming_bytes st = packet ++ rest ->
  parse packet_header_format packet = Ok h ->
  packet_length h = len packet ->
  (type h = "DATA_PACKET"%string /\ parse data_packet_format packet = Raise e)
  \/ (type h = "STRING_PACKET"%string
      /\ parse string_packet_format packet = Raise e) ->
  loop_body st = Exit (Raised e) (set_incoming_bytes st rest).
Proof.
  intros Hbytes Hh Hlen Hbody.
  destruct (header_parse_inv _ _ Hh) as (b4 & b5 & b6 & tl & Hpacket).
  assert (Hfind : find (incoming_bytes st) CONST_HEADER = 0).
  { rewrite Hbytes, Hpacket. reflexivity. }
  assert (Hh' : parse packet_header_format (packet ++ rest) = Ok h).
  { rewrite <- Hh, Hpacket, <- app_assoc. cbn [app].
    apply (header_parse_prefix b4 b5 b6). }
  assert (Hseven : packet_header_format_sizeof <= len packet).
  { rewrite Hpacket. unfold len. cbn. lia. }
  unfold loop_body. rewrite Hfind. cbn [Z.eqb incoming_bytes set_incoming_bytes].
  change (del_prefix (incoming_bytes st) 0) with (incoming_bytes st).
  rewrite Hbytes, Hh', Hlen.
  assert (Hall : len (packet ++ rest) = len packet + len rest).
  { unfold len. rewrite length_app. lia. }
  destruct (len (packet ++ rest) <? packet_header_format_sizeof) eqn:E1.
  { apply Z.ltb_lt in E1. unfold len in *. lia. }
  destruct (len (packet ++ rest) <? 0 + len packet) eqn:E2.
  { apply Z.ltb_lt in E2. unfold len in *. lia. }
  rewrite slice_whole_prefix, del_whole_prefix.
  destruct Hbody as [[Ht Hp]|[Ht Hp]]; rewrite Ht, Hp; reflexivity.
Qed.

(** C3, amended: when the buffer starts with a complete packet whose header
    parses and whose body does not, [handle_incoming_bytes] removes that
    packet from the buffer and the parser's exception leaves the call.
    Nothing is dispatched for the packet (queue and controller calls are as
    before, apart from the overload [disconnect]), and the bytes behind it
    stay in the buffer, undecoded in this call. *)
Theorem malformed_packet_removed_then_raises (MAX_BYTES_PER_READ : Z)
  (st : State) (packet rest : list byte) (h : PacketHeader) (e : Exception) :
  incoming_bytes st = packet ++ rest ->
  parse packet_header_format packet = Ok h ->
  packet_length h = len packet ->
  (type h = "DATA_PACKET"%string /\ parse data_packet_format packet = Raise e)
  \/ (type h = "STRING_PACKET"%string
      /\ parse string_packet_format packet = Raise e) ->
  handle_incoming_bytes MAX_BYTES_PER_READ st
  = Some (Raised e,
          set_incoming_bytes
            (if MAX_BYTES_PER_READ <? len (incoming_bytes st)
             then disconnect st else st)
            rest).
Proof.
  intros Hbytes Hh Hlen Hbody.
  unfold handle_incoming_bytes, handle_incoming_bytes_fuel.
  cbn [while_true].
  rewrite (loop_body_malformed _ packet rest h e); trivial.
  now destruct (_ <? _).
Qed.

Lemma malformed_packet_removed_then_raises_witness :
  handle_incoming_bytes 64 (fresh (short_data_packet ++ pong_bytes))
  = Some (Raised FieldError,
          set_incoming_bytes
            (if 64 <? len (incoming_bytes (fresh (short_data_packet ++ pong_bytes)))
             then disconnect (fresh (short_data_packet ++ pong_bytes))
             else fresh (short_data_packet ++ pong_bytes))
            pong_bytes).
Proof.
  apply (malformed_packet_removed_then_raises 64
           (fresh (short_data_packet ++ pong_bytes))
           short_data_packet pong_bytes
           {| const_header := CONST_HEADER; type := "DATA_PACKET";
              packet_length := 8 |}
           FieldError).
  - reflexivity.
  - reflexivity.
  - reflexivity.
  - left; split; reflexivity.
Defined.

(** ** Data blocks *)

Lemma FormatField_short (width : nat) (s : list byte) :
  (List.length s < width)%nat -> FormatField width s = Raise FieldError.
Proof.
  intros H; unfold FormatField, bind, read_stream.
  now apply Nat.ltb_lt in H as ->.
Qed.

Lemma FormatField_ok (width : nat) (s : list byte) :
  (width <= List.length s)%nat ->
  FormatField width s = Ok (be_uint (firstn width s), skipn width s).
Proof.
  intros H; unfold FormatField, bind, read_stream.
  now apply Nat.ltb_ge in H as ->.
Qed.

Lemma grouped_short (width : nat) (payload : list byte) :
  (List.length payload < width)%nat -> grouped width payload = [].
Proof.
  intros H; unfold grouped. now rewrite Nat.div_small.
Qed.

Lemma grouped_step (width : nat) (payload : list byte) :
  (0 < width <= List.length payload)%nat ->
  grouped width payload
  = be_uint (firstn width payload) :: grouped width (skipn width payload).
Proof.
  intros [Hpos Hle]; unfold grouped.
  rewrite length_skipn.
  replace (List.length payload / width)%nat
    with (S ((List.length payload - width) / width)).
  2:{ replace (List.length payload)
        with ((List.length payload - width) + 1 * width)%nat at 2 by lia.
      rewrite Nat.div_add by lia. lia. }
  cbn [seq List.map Nat.mul skipn]. f_equal.
  rewrite <- seq_shift, map_map.
  apply map_ext; intros i.
  rewrite skipn_skipn. do 3 f_equal. lia.
Qed.

Lemma Range_loop_grouped (width : nat) :
  (0 < width)%nat ->
  forall (rounds : nat) (s : list byte),
    (List.length s <= rounds)%nat ->
    fst (Range_loop rounds (FormatField width) s) = grouped width s.
Proof.
  intros Hpos; induction rounds as [|rounds IH]; intros s Hs.
  - cbn. rewrite grouped_short; [reflexivity | lia].
  - cbn [Range_loop].
    destruct (Nat.lt_ge_cases (List.length s) width) as [Hshort|Hlong].
    + now rewrite FormatField_short, grouped_short.
    + rewrite FormatField_ok, grouped_step by lia.
      specialize (IH (skipn width s)).
      destruct (Range_loop rounds (FormatField width) (skipn width s)).
      cbn [fst] in *. rewrite IH; [reflexivity|].
      rewrite length_skipn. lia.
Qed.

Lemma Prefixed_grouped (width : nat) (hi lo : byte) (payload rest : list byte) :
  (0 < width)%nat ->
  be_uint [hi; lo] = len payload ->
  Prefixed (FormatField 2) (GreedyRange (FormatField width))
    (hi :: lo :: payload ++ rest)
  = Ok (grouped width payload, rest).
Proof.
  intros Hpos Hlen.
  unfold Prefixed, bind at 1.
  rewrite FormatField_ok by (cbn; lia).
  cbn [firstn skipn]. rewrite Hlen.
  unfold bind, read_stream, len. rewrite Nat2Z.id.
  rewrite length_app.
  replace (_ <? _)%nat with false by (symmetry; apply Nat.ltb_ge; lia).
  rewrite firstn_app, firstn_all, Nat.sub_diag, skipn_app, skipn_all,
    Nat.sub_diag.
  cbn [firstn skipn app]. rewrite app_nil_r.
  unfold parse, GreedyRange.
  pose proof (Range_loop_grouped width Hpos (List.length payload) payload
                (Nat.le_refl _)) as H.
  destruct (Range_loop _ _ payload) as [xs s']. cbn [fst] in H.
  now rewrite H.
Qed.

(** C6 as stated fails.  A block is an id, a length and the payload: no
    byte of it declares an element width, and the decoded block does not
    hold one list of values.  For the block 05 00 02 01 02 it holds [1; 2]
    (the payload read one byte at a time) next to [258] (read two bytes at
    a time), so no single width accounts for it. *)
Lemma data_block_holds_every_width :
  parse data_packet_data_block_format two_byte_block
  = Ok {| block_id := 5; data := two_byte_block_data |}
  /\ ~ values_at_one_width [x01; x02] two_byte_block_data.
Proof.
  split; [reflexivity|].
  intros (width & _ & H).
  assert (H8 : [1; 2] = grouped width [x01; x02])
    by (apply H; cbn; auto).
  assert (H16 : [258] = grouped width [x01; x02])
    by (apply H; cbn; auto).
  congruence.
Qed.

(** C6, amended: decoding a block reads a 1-byte id and a 2-byte big-endian
    byte-length prefix, and reads the prefixed bytes at all four widths:
    the decoded block holds, side by side, the payload grouped by 1, by 2,
    by 4 and by 8 bytes as big-endian unsigned integers.  The stream is
    left just behind the payload. *)
Theorem data_block_decodes_at_every_width (id hi lo : byte)
  (payload rest : list byte) :
  be_uint [hi; lo] = len payload ->
  data_packet_data_block_format (id :: hi :: lo :: payload ++ rest)
  = Ok ({| block_id := byte_val id;
           data := {| Int8 := Some (grouped 1 payload);
                      Int16 := Some (grouped 2 payload);
                      Int32 := Some (grouped 4 payload);
                      Int64 := Some (grouped 8 payload) |} |},
        rest).
Proof.
  intros Hlen.
  unfold data_packet_data_block_format, data_union_format.
  unfold Int8ub, Int16ub, Int32ub, Int64ub.
  unfold bind at 1. rewrite FormatField_ok by (cbn; lia).
  cbn [firstn skipn].
  unfold bind, Peek.
  rewrite !Prefixed_grouped by (trivial; lia).
  reflexivity.
Qed.

Lemma data_block_decodes_at_every_width_witness :
  data_packet_data_block_format (x05 :: x00 :: x02 :: [x01; x02] ++ [])
  = Ok ({| block_id := byte_val x05;
           data := {| Int8 := Some (grouped 1 [x01; x02]);
                      Int16 := Some (grouped 2 [x01; x02]);
                      Int32 := Some (grouped 4 [x01; x02]);
                      Int64 := Some (grouped 8 [x01; x02]) |} |},
        []).
Proof.
  apply (data_block_decodes_at_every_width x05 x00 x02 [x01; x02] []).
  reflexivity.
Defined.

(** ** The overload check *)

Lemma loop_body_disconnect (st : State) :
  loop_body (disconnect st)
  = match loop_body st with
    | Exit o st' => Exit o (disconnect st')
    | Continue st' => Continue (disconnect st')
    end.
Proof.
  unfold loop_body. cbn [incoming_bytes disconnect set_incoming_bytes].
  destruct (_ =? -1); [reflexivity|].
  destruct (_ <? packet_header_format_sizeof); [reflexivity|].
  destruct (parse packet_header_format _) as [h|]; [|reflexivity].
  destruct (_ <? _); [reflexivity|].
  destruct (type h =? "DATA_PACKET")%string.
  - destruct (parse data_packet_format _); reflexivity.
  - destruct (type h =? "STRING_PACKET")%string; [|reflexivity].
    destruct (parse string_packet_format _); [|reflexivity].
    unfold queue_put.
    cbn [incoming_bytes string_packets_queue input_channel_updates disconnects].
    destruct (_ <? _)%nat; reflexivity.
Qed.

Lemma while_true_disconnect (fuel : nat) (st : State) :
  while_true fuel (disconnect st)
  = match while_true fuel st with
    | Some (o, st') => Some (o, disconnect st')
    | None => None
    end.
Proof.
  revert st; induction fuel as [|fuel IH]; intros st; [reflexivity|].
  cbn [while_true]. rewrite loop_body_disconnect.
  destruct (loop_body st); [reflexivity | apply IH].
Qed.

(** C9: a buffer longer than [MAX_BYTES_PER_READ] makes
    [handle_incoming_bytes] call [disconnect], and the call goes on: it ends
    the same way, leaves the same buffer and dispatches the same packets as
    the run in which the buffer is not over the limit; the one difference
    is the [disconnect] call. *)
Theorem oversized_buffer_disconnects_and_parses (MAX_BYTES_PER_READ : Z)
  (st : State) :
  MAX_BYTES_PER_READ < len (incoming_bytes st) ->
  exists o st',
    handle_incoming_bytes (len (incoming_bytes st)) st = Some (o, st')
    /\ handle_incoming_bytes MAX_BYTES_PER_READ st = Some (o, disconnect st').
Proof.
  intros Hover.
  destruct (while_true_total (S (List.length (incoming_bytes st))) st)
    as (o & st' & Hrun); [lia|].
  exists o, st'.
  unfold handle_incoming_bytes, handle_incoming_bytes_fuel.
  rewrite Z.ltb_irrefl. split; [exact Hrun|].
  revert Hrun.
  apply Z.ltb_lt in Hover as ->.
  rewrite while_true_disconnect. now intros ->.
Qed.

Lemma oversized_buffer_disconnects_and_parses_witness :
  exists o st',
    handle_incoming_bytes (len (incoming_bytes (fresh pong_bytes)))
      (fresh pong_bytes) = Some (o, st')
    /\ handle_incoming_bytes 4 (fresh pong_bytes) = Some (o, disconnect st').
Proof.
  apply (oversized_buffer_disconnects_and_parses 4 (fresh pong_bytes)).
  reflexivity.
Defined.

(** An eleven-byte buffer against a limit of four bytes: [disconnect] is
    called once and the PONG packet is queued all the same. *)
Example oversized_pong_still_queued :
  handle_incoming_bytes 4 (fresh pong_bytes)
  = Some (Returned,
          {| incoming_bytes := [];
             string_packets_queue := [pong_packet];
             input_channel_updates := [];
             disconnects := 1 |}).
Proof. vm_compute; reflexivity. Qed.

(** ** ping *)

Lemma str_eqb_eq (a b : str) : str_eqb a b = true <-> a = b.
Proof.
  unfold str_eqb. revert b; induction a as [|x a IH]; intros [|y b];
    cbn; try easy.
  rewrite andb_true_iff, Nat.eqb_eq in *.
  specialize (IH b). rewrite andb_true_iff, Nat.eqb_eq in IH.
  rewrite andb_true_iff, Z.eqb_eq. split.
  - intros (Hlen & Hxy & Hrest). f_equal; [exact Hxy|]. now apply IH.
  - intros [= -> ->]. repeat split.
    all: now apply IH.
Qed.

(** C8: for a controller that has a comm port, [ping] returns true exactly
    when [get] hands over a string packet before its timeout and the text
    of that packet is PONG.  It returns false when the wait times out and
    when the packet's text is anything else.  A packet that was handed
    over is gone from the queue, and only that one. *)
Theorem ping_true_iff_pong (receive : list StringPacket -> list StringPacket)
  (l : Link) (sent : list string) :
  comm_port l = Some sent ->
  (fst (ping receive l) = Ok true <->
     exists p q', queue_get (receive (replies l)) = Some (p, q')
                  /\ string_of p = STRING_PACKET_TYPE_PONG)
  /\ (queue_get (receive (replies l)) = None ->
      fst (ping receive l) = Ok false)
  /\ (forall p q', queue_get (receive (replies l)) = Some (p, q') ->
                   string_of p <> STRING_PACKET_TYPE_PONG ->
                   fst (ping receive l) = Ok false)
  /\ (forall p q', queue_get (receive (replies l)) = Some (p, q') ->
                   replies (snd (ping receive l)) = q').
Proof.
  intros Hport. unfold ping, transmit. rewrite Hport.
  cbn [comm_port replies].
  destruct (queue_get (receive (replies l))) as [[p q]|]; cbn [fst snd replies].
  - unfold search_string. repeat split.
    + intros [= H]. exists p, q. split; [reflexivity | now apply str_eqb_eq].
    + intros (p' & q' & [= <- <-] & H). f_equal. now apply str_eqb_eq.
    + easy.
    + intros p' q' [= <- <-] H. f_equal.
      destruct (str_eqb _ _) eqn:E; [|reflexivity].
      now apply str_eqb_eq in E.
    + now intros p' q' [= <- <-].
  - repeat split; try easy.
    now intros (p & q & H & _).
Qed.

Lemma ping_true_iff_pong_witness :
  fst (ping (fun q => q) pong_link) = Ok true
  /\ replies (snd (ping (fun q => q) pong_link)) = [].
Proof.
  destruct (ping_true_iff_pong (fun q => q) pong_link [] eq_refl)
    as (Htrue & _ & _ & Hgone).
  split.
  - apply Htrue. exists pong_packet, []. split; reflexivity.
  - apply (Hgone pong_packet []). reflexivity.
Defined.

(** The two replies of the specification's examples: PONG gives true, PONX
    gives false, and an empty queue gives false. *)
Example ping_examples :
  fst (ping (fun q => q) pong_link) = Ok true
  /\ fst (ping (fun q => q)
            {| comm_port := Some [];
               replies := [{| string_packet_header_of :=
                                string_packet_header_of pong_packet;
                              string_of := str_of_string "PONX" |}] |})
     = Ok false
  /\ ping (fun q => q) {| comm_port := Some []; replies := [] |}
     = (Ok false,
        {| comm_port := Some [build_command_packet "PING" []];
           replies := [] |}).
Proof. repeat split. Qed.

(** ** Outgoing commands *)

Lemma string_app_assoc (a b c : string) :
  ((a ++ b) ++ c = a ++ b ++ c)%string.
Proof.
  induction a as [|x a IH]; cbn; [reflexivity | now rewrite IH].
Qed.

(** C10: with no parameters the packet is the command name followed by one
    carriage return, with nothing in between; with parameters it is the
    name, one space, and the parameters laid out the same way: each
    followed by one space, the last by the carriage return. *)
Theorem build_command_packet_layout (command : string)
  (parameters : list PyValue) :
  build_command_packet command parameters
  = match parameters with
    | [] => (command ++ CR)%string
    | p :: ps => (command ++ " " ++ build_command_packet (format p) ps)%string
    end.
Proof.
  unfold build_command_packet.
  destruct parameters as [|p ps]; [reflexivity|].
  cbn [List.map format String.concat].
  now rewrite !string_app_assoc.
Qed.

Example build_command_packet_examples :
  build_command_packet "CH:WRITE" [PyStr "A0"; PyStr "123"]
  = ("CH:WRITE A0 123" ++ CR)%string
  /\ build_command_packet "CH:WRITE" [PyStr "A0"; PyInt 123]
     = ("CH:WRITE A0 123" ++ CR)%string
  /\ build_command_packet CMD_PING [] = ("PING" ++ CR)%string.
Proof. repeat split. Qed.

(** * Further properties of the decode loop *)

(** ** [find] *)

Lemma find_from_hit (i : Z) (s sub : list byte) :
  find_from i s sub <> -1 -> 0 <= i ->
  i <= find_from i s sub <= i + len s
  /\ startswith (skipn (Z.to_nat (find_from i s sub - i)) s) sub = true.
Proof.
  revert i; induction s as [|y s IH]; intros i Hhit Hi; cbn [find_from] in *.
  - destruct (startswith [] sub) eqn:E; [|easy].
    rewrite Z.sub_diag. unfold len; cbn. split; [lia | exact E].
  - destruct (startswith (y :: s) sub) eqn:E.
    + rewrite Z.sub_diag. unfold len; cbn [List.length]. split; [lia | exact E].
    + destruct (IH (i + 1) Hhit ltac:(lia)) as [Hrange Hstart].
      unfold len in *; cbn [List.length]. split; [lia|].
      replace (Z.to_nat (find_from (i + 1) s sub - i))
        with (S (Z.to_nat (find_from (i + 1) s sub - (i + 1)))) by lia.
      exact Hstart.
Qed.

Lemma find_hit (s sub : list byte) :
  find s sub <> -1 ->
  0 <= find s sub <= len s
  /\ startswith (del_prefix s (find s sub)) sub = true.
Proof.
  intros H. unfold find in *.
  destruct (find_from_hit 0 s sub H ltac:(lia)) as [Hr Hs].
  rewrite Z.sub_0_r in Hs. split; [lia | exact Hs].
Qed.

(** ** Running the loop longer changes nothing *)

Lemma while_true_more_fuel (fuel fuel' : nat) (st : State)
  (r : Outcome * State) :
  while_true fuel st = Some r -> (fuel <= fuel')%nat ->
  while_true fuel' st = Some r.
Proof.
  revert fuel' st; induction fuel as [|fuel IH]; intros fuel' st; [easy|].
  destruct fuel' as [|fuel']; [lia|]. cbn [while_true].
  destruct (loop_body st); [easy|]. intros H Hle. apply IH; [exact H | lia].
Qed.

Lemma while_true_enough (fuel : nat) (st : State) :
  (List.length (incoming_bytes st) < fuel)%nat ->
  while_true fuel st = while_true (S (List.length (incoming_bytes st))) st.
Proof.
  intros Hfuel.
  destruct (while_true_total (S (List.length (incoming_bytes st))) st)
    as (o & st' & Hrun); [lia|].
  rewrite Hrun. apply (while_true_more_fuel _ _ _ _ Hrun). lia.
Qed.

(** ** What one pass may change *)

Lemma advances_refl (st : State) : advances st st.
Proof.
  repeat split; try (exists []); now rewrite ?app_nil_r.
Qed.

Lemma advances_trans (a b c : State) :
  advances a b -> advances b c -> advances a c.
Proof.
  intros ((g1 & H1) & (p1 & Hp1) & (u1 & Hu1) & Hd1)
         ((g2 & H2) & (p2 & Hp2) & (u2 & Hu2) & Hd2).
  repeat split.
  - exists (g1 ++ g2). now rewrite H1, H2, app_assoc.
  - exists (p1 ++ p2). now rewrite Hp2, Hp1, app_assoc.
  - exists (u1 ++ u2). now rewrite Hu2, Hu1, app_assoc.
  - congruence.
Qed.

Lemma advances_del_prefix (st : State) (j : Z) :
  advances st (set_incoming_bytes st (del_prefix (incoming_bytes st) j)).
Proof.
  repeat split; cbn; try (exists []; now rewrite ?app_nil_r).
  exists (firstn (Z.to_nat j) (incoming_bytes st)).
  unfold del_prefix. now rewrite firstn_skipn.
Qed.

Lemma advances_clear (st : State) : advances st (set_incoming_bytes st []).
Proof.
  repeat split; cbn; try (exists []; now rewrite ?app_nil_r).
  exists (incoming_bytes st). now rewrite app_nil_r.
Qed.

Lemma advances_update (st : State) (p : DataPacket) :
  advances st (update_input_channels st p).
Proof.
  repeat split; cbn; try (exists []; now rewrite ?app_nil_r).
  now exists [p].
Qed.

Lemma advances_put (st st' : State) (p : StringPacket) :
  queue_put st p = Some st' -> advances st st'.
Proof.
  unfold queue_put. destruct (_ <? _)%nat; [|easy]. intros [= <-].
  repeat split; cbn; try (exists []; now rewrite ?app_nil_r).
  now exists [p].
Qed.

Lemma loop_body_advances (st : State) :
  match loop_body st with
  | Exit _ st' => advances st st'
  | Continue st' => advances st st'
  end.
Proof.
  loop_body_cases;
    repeat first
      [ apply advances_clear
      | apply advances_del_prefix
      | apply advances_update
      | eapply advances_put; eassumption
      | eapply advances_trans;
        [apply (advances_del_prefix st (find (incoming_bytes st) CONST_HEADER))|]
      | eapply advances_trans; [apply advances_del_prefix|] ].
Qed.

Lemma while_true_advances (fuel : nat) (st : State) (o : Outcome)
  (st' : State) :
  while_true fuel st = Some (o, st') -> advances st st'.
Proof.
  revert st; induction fuel as [|fuel IH]; intros st; [easy|].
  cbn [while_true]. pose proof (loop_body_advances st) as Hstep.
  destruct (loop_body st) as [o1 st1|st1].
  - now intros [= <- <-].
  - intros H. eapply advances_trans; [exact Hstep | now apply IH].
Qed.

Lemma handle_incoming_bytes_advances (MAX_BYTES_PER_READ : Z) (st : State)
  (o : Outcome) (st' : State) :
  handle_incoming_bytes MAX_BYTES_PER_READ st = Some (o, st') ->
  advances (if MAX_BYTES_PER_READ <? len (incoming_bytes st)
            then disconnect st else st) st'.
Proof.
  unfold handle_incoming_bytes, handle_incoming_bytes_fuel.
  apply while_true_advances.
Qed.

(** X1: a call only deletes bytes at the front of the buffer.  Whatever
    the outcome, the buffer it leaves is a suffix of the buffer it was
    given: no byte is changed, added or reordered. *)
Theorem buffer_left_is_a_suffix (MAX_BYTES_PER_READ : Z) (st : State)
  (o : Outcome) (st' : State) :
  handle_incoming_bytes MAX_BYTES_PER_READ st = Some (o, st') ->
  exists gone, incoming_bytes st = gone ++ incoming_bytes st'.
Proof.
  intros H. apply handle_incoming_bytes_advances in H as (Hbytes & _).
  now destruct (_ <? _).
Qed.

Lemma buffer_left_is_a_suffix_witness :
  exists gone,
    incoming_bytes (fresh (short_data_packet ++ pong_bytes))
    = gone ++ incoming_bytes (fresh pong_bytes).
Proof.
  apply (buffer_left_is_a_suffix 64 (fresh (short_data_packet ++ pong_bytes))
           (Raised FieldError) (fresh pong_bytes)).
  reflexivity.
Defined.

(** X2: a call only appends to what it dispatches to.  The string packets
    already on the queue and the updates already handed to the controller
    stay as they are, in their order, with the new ones behind them; and
    [disconnect] is called once when the buffer is longer than
    [MAX_BYTES_PER_READ] and not at all otherwise. *)
Theorem dispatch_is_append_only (MAX_BYTES_PER_READ : Z) (st : State)
  (o : Outcome) (st' : State) :
  handle_incoming_bytes MAX_BYTES_PER_READ st = Some (o, st') ->
  (exists put,
      string_packets_queue st' = string_packets_queue st ++ put)
  /\ (exists updates,
         input_channel_updates st' = input_channel_updates st ++ updates)
  /\ disconnects st'
     = (if MAX_BYTES_PER_READ <? len (incoming_bytes st)
        then S (disconnects st) else disconnects st).
Proof.
  intros H. apply handle_incoming_bytes_advances in H as (_ & Hq & Hu & Hd).
  now destruct (_ <? _).
Qed.

Lemma dispatch_is_append_only_witness :
  (exists put,
      string_packets_queue
        {| incoming_bytes := []; string_packets_queue := [pong_packet];
           input_channel_updates := []; disconnects := 1 |}
      = string_packets_queue (fresh pong_bytes) ++ put)
  /\ (exists updates,
         input_channel_updates
           {| incoming_bytes := []; string_packets_queue := [pong_packet];
              input_channel_updates := []; disconnects := 1 |}
         = input_channel_updates (fresh pong_bytes) ++ updates)
  /\ disconnects
       {| incoming_bytes := []; string_packets_queue := [pong_packet];
          input_channel_updates := []; disconnects := 1 |}
     = (if 4 <? len (incoming_bytes (fresh pong_bytes))
        then S (disconnects (fresh pong_bytes))
        else disconnects (fresh pong_bytes)).
Proof.
  apply (dispatch_is_append_only 4 (fresh pong_bytes) Returned).
  reflexivity.
Defined.

(** ** How a call can end *)

Lemma while_true_exit (Q : Outcome -> State -> Prop) :
  (forall st o st', loop_body st = Exit o st' -> Q o st') ->
  forall fuel st o st', while_true fuel st = Some (o, st') -> Q o st'.
Proof.
  intros Hexit; induction fuel as [|fuel IH]; intros st o st'; [easy|].
  cbn [while_true]. destruct (loop_body st) as [o1 st1|st1] eqn:Hbody.
  - intros [= <- <-]. now apply (Hexit st).
  - apply IH.
Qed.

Lemma loop_body_returned (st st' : State) :
  loop_body st = Exit Returned st' ->
  incoming_bytes st' = []
  \/ startswith (incoming_bytes st') CONST_HEADER = true.
Proof.
  loop_body_cases; intros [= <-]; cbn [incoming_bytes set_incoming_bytes];
    try (now left);
    right; apply find_hit; now apply Z.eqb_neq.
Qed.

(** X3: when a call returns, the buffer it leaves is empty or begins with
    the marker: everything in front of the next packet has been deleted,
    and what is kept is the start of a packet that is waiting for more
    bytes. *)
Theorem returned_buffer_starts_with_marker (MAX_BYTES_PER_READ : Z)
  (st st' : State) :
  handle_incoming_bytes MAX_BYTES_PER_READ st = Some (Returned, st') ->
  incoming_bytes st' = []
  \/ startswith (incoming_bytes st') CONST_HEADER = true.
Proof.
  unfold handle_incoming_bytes, handle_incoming_bytes_fuel. intros H.
  enough (Hq : Returned = Returned ->
               incoming_bytes st' = []
               \/ startswith (incoming_bytes st') CONST_HEADER = true)
    by now apply Hq.
  revert H.
  apply (while_true_exit
           (fun o s => o = Returned ->
                       incoming_bytes s = []
                       \/ startswith (incoming_bytes s) CONST_HEADER = true)).
  intros s o s' Hbody ->. now apply (loop_body_returned s).
Qed.

Lemma returned_buffer_starts_with_marker_witness :
  incoming_bytes (fresh pong_bytes) = []
  \/ startswith (incoming_bytes (fresh pong_bytes)) CONST_HEADER = true.
Proof.
  apply (returned_buffer_starts_with_marker 64
           (fresh ([xff; xff] ++ pong_bytes)) (fresh pong_bytes)).
  reflexivity.
Defined.

Lemma queue_put_some (st st' : State) (p : StringPacket) :
  queue_put st p = Some st' ->
  (List.length (string_packets_queue st) < string_packets_queue_maxsize)%nat
  /\ string_packets_queue st' = string_packets_queue st ++ [p].
Proof.
  unfold queue_put. destruct (_ <? _)%nat eqn:E; [|easy].
  intros [= <-]. apply Nat.ltb_lt in E. now split.
Qed.

Lemma queue_put_none (st : State) (p : StringPacket) :
  queue_put st p = None ->
  (string_packets_queue_maxsize <= List.length (string_packets_queue st))%nat.
Proof.
  unfold queue_put. destruct (_ <? _)%nat eqn:E; [easy|].
  intros _. now apply Nat.ltb_ge in E.
Qed.

Lemma loop_body_queue_bound (st : State) :
  (List.length (string_packets_queue st) <= string_packets_queue_maxsize)%nat ->
  match loop_body st with
  | Exit o st' =>
      (List.length (string_packets_queue st')
       <= string_packets_queue_maxsize)%nat
      /\ (o = Blocked ->
          List.length (string_packets_queue st')
          = string_packets_queue_maxsize)
  | Continue st' =>
      (List.length (string_packets_queue st')
       <= string_packets_queue_maxsize)%nat
  end.
Proof.
  intros Hq. loop_body_cases;
    cbn [string_packets_queue set_incoming_bytes update_input_channels];
    try (split; [exact Hq | easy]); try exact Hq.
  - match goal with H : queue_put _ _ = Some _ |- _ =>
      apply queue_put_some in H as [Hlt ->] end.
    cbn [string_packets_queue set_incoming_bytes] in *.
    rewrite length_app. cbn [List.length]. lia.
  - match goal with H : queue_put _ _ = None |- _ =>
      apply queue_put_none in H end.
    cbn [string_packets_queue set_incoming_bytes] in *.
    split; [exact Hq | intros _; lia].
Qed.

Lemma while_true_queue_bound (fuel : nat) (st : State) (o : Outcome)
  (st' : State) :
  while_true fuel st = Some (o, st') ->
  (List.length (string_packets_queue st) <= string_packets_queue_maxsize)%nat ->
  (List.length (string_packets_queue st') <= string_packets_queue_maxsize)%nat
  /\ (o = Blocked ->
      List.length (string_packets_queue st') = string_packets_queue_maxsize).
Proof.
  revert st; induction fuel as [|fuel IH]; intros st; [easy|].
  cbn [while_true]. intros H Hq.
  pose proof (loop_body_queue_bound st Hq) as Hstep.
  destruct (loop_body st) as [o1 st1|st1].
  - now injection H as <- <-.
  - now apply (IH st1).
Qed.

(** X4: the queue never holds more than its ten entries.  A call that
    starts with at most ten string packets queued ends with at most ten,
    and it ends waiting inside [put] only with the queue full. *)
Theorem queue_stays_within_maxsize (MAX_BYTES_PER_READ : Z) (st : State)
  (o : Outcome) (st' : State) :
  handle_incoming_bytes MAX_BYTES_PER_READ st = Some (o, st') ->
  (List.length (string_packets_queue st) <= 10)%nat ->
  (List.length (string_packets_queue st') <= 10)%nat
  /\ (o = Blocked -> List.length (string_packets_queue st') = 10%nat).
Proof.
  unfold handle_incoming_bytes, handle_incoming_bytes_fuel. intros H Hq.
  apply while_true_queue_bound in H; [exact H|].
  now destruct (_ <? _).
Qed.

Lemma queue_stays_within_maxsize_witness :
  (List.length (string_packets_queue
                  {| incoming_bytes := [];
                     string_packets_queue := [pong_packet];
                     input_channel_updates := []; disconnects := 0 |})
   <= 10)%nat
  /\ (Returned = Blocked ->
      List.length (string_packets_queue
                     {| incoming_bytes := [];
                        string_packets_queue := [pong_packet];
                        input_channel_updates := []; disconnects := 0 |})
      = 10%nat).
Proof.
  apply (queue_stays_within_maxsize 64 (fresh pong_bytes) Returned).
  - reflexivity.
  - cbn. lia.
Defined.

(** ** A packet at the head of the buffer *)

Lemma set_incoming_bytes_same (st : State) :
  set_incoming_bytes st (incoming_bytes st) = st.
Proof. now destruct st. Qed.

Lemma data_packet_header_parses (packet : list byte) (p : DataPacket) :
  parse data_packet_format packet = Ok p ->
  parse packet_header_format packet = Ok (data_packet_header_of p).
Proof.
  unfold parse, data_packet_format, bind.
  destruct (packet_header_format packet) as [[h s1]|]; [|easy].
  destruct (data_packet_header_format s1) as [[t s2]|]; [|easy].
  destruct (PrefixedArray _ _ s2) as [[bs s3]|]; [|easy].
  now intros [= <-].
Qed.

Lemma string_packet_header_parses (packet : list byte) (p : StringPacket) :
  parse string_packet_format packet = Ok p ->
  parse packet_header_format packet = Ok (string_packet_header_of p).
Proof.
  unfold parse, string_packet_format, bind.
  destruct (packet_header_format packet) as [[h s1]|]; [|easy].
  destruct (GreedyString s1) as [[t s2]|]; [|easy].
  now intros [= <-].
Qed.

(** With a whole packet at the head of the buffer, a pass takes exactly
    that packet and dispatches on its type. *)
Lemma loop_body_head (st : State) (packet rest : list byte)
  (h : PacketHeader) :
  incoming_bytes st = packet ++ rest ->
  parse packet_header_format packet = Ok h ->
  packet_length h = len packet ->
  loop_body st
  = if (type h =? "DATA_PACKET")%string then
      match parse data_packet_format packet with
      | Raise e => Exit (Raised e) (set_incoming_bytes st rest)
      | Ok p => Continue (update_input_channels (set_incoming_bytes st rest) p)
      end
    else if (type h =? "STRING_PACKET")%string then
      match parse string_packet_format packet with
      | Raise e => Exit (Raised e) (set_incoming_bytes st rest)
      | Ok p =>
          match queue_put (set_incoming_bytes st rest) p with
          | Some st' => Continue st'
          | None => Exit Blocked (set_incoming_bytes st rest)
          end
      end
    else
      Continue (set_incoming_bytes st (del_prefix rest (0 + len packet))).
Proof.
  intros Hbytes Hh Hlen.
  destruct (header_parse_inv _ _ Hh) as (b4 & b5 & b6 & tl & Hpacket).
  assert (Hfind : find (incoming_bytes st) CONST_HEADER = 0).
  { rewrite Hbytes, Hpacket. reflexivity. }
  assert (Hh' : parse packet_header_format (packet ++ rest) = Ok h).
  { rewrite <- Hh, Hpacket, <- app_assoc. cbn [app].
    apply (header_parse_prefix b4 b5 b6). }
  assert (Hseven : packet_header_format_sizeof <= len packet).
  { rewrite Hpacket. unfold len. cbn. lia. }
  unfold loop_body. rewrite Hfind. cbn [Z.eqb incoming_bytes set_incoming_bytes].
  change (del_prefix (incoming_bytes st) 0) with (incoming_bytes st).
  rewrite Hbytes, Hh', Hlen.
  assert (Hall : len (packet ++ rest) = len packet + len rest).
  { unfold len. rewrite length_app. lia. }
  destruct (len (packet ++ rest) <? packet_header_format_sizeof) eqn:E1.
  { apply Z.ltb_lt in E1. unfold len in *. lia. }
  destruct (len (packet ++ rest) <? 0 + len packet) eqn:E2.
  { apply Z.ltb_lt in E2. unfold len in *. lia. }
  rewrite slice_whole_prefix, del_whole_prefix.
  reflexivity.
Qed.

Lemma packet_nonempty (packet : list byte) (h : PacketHeader) :
  parse packet_header_format packet = Ok h -> (0 < List.length packet)%nat.
Proof.
  intros H. destruct (header_parse_inv _ _ H) as (b4 & b5 & b6 & tl & ->).
  cbn. lia.
Qed.

Lemma while_true_after_head (st st1 : State) (packet rest : list byte)
  (h : PacketHeader) :
  incoming_bytes st = packet ++ rest ->
  parse packet_header_format packet = Ok h ->
  incoming_bytes st1 = rest ->
  loop_body st = Continue st1 ->
  while_true (S (List.length (incoming_bytes st))) st
  = while_true (S (List.length rest)) st1.
Proof.
  intros Hbytes Hh Hrest Hbody. cbn [while_true]. rewrite Hbody.
  rewrite <- Hrest. apply while_true_enough.
  rewrite Hbytes, Hrest, length_app.
  pose proof (packet_nonempty _ _ Hh). lia.
Qed.

Lemma no_overload (MAX_BYTES_PER_READ : Z) (st : State) :
  len (incoming_bytes st) <= MAX_BYTES_PER_READ ->
  handle_incoming_bytes MAX_BYTES_PER_READ st
  = while_true (S (List.length (incoming_bytes st))) st.
Proof.
  intros H. unfold handle_incoming_bytes, handle_incoming_bytes_fuel.
  now apply Z.ltb_ge in H as ->.
Qed.

(** X5: a whole, well-formed DATA packet at the head of the buffer is handed
    to [update_input_channels], and what follows it in the buffer is then
    handled exactly as a call on those bytes alone would handle it. *)
Theorem data_packet_then_rest (MAX_BYTES_PER_READ : Z) (st : State)
  (packet rest : list byte) (p : DataPacket) :
  incoming_bytes st = packet ++ rest ->
  decodes_to packet (DecodedData p) ->
  len (incoming_bytes st) <= MAX_BYTES_PER_READ ->
  handle_incoming_bytes MAX_BYTES_PER_READ st
  = handle_incoming_bytes MAX_BYTES_PER_READ
      (update_input_channels (set_incoming_bytes st rest) p).
Proof.
  intros Hbytes (Hp & Htype & Hlen) Hmax.
  pose proof (data_packet_header_parses _ _ Hp) as Hh.
  rewrite !no_overload; trivial.
  2:{ cbn. rewrite Hbytes in Hmax. unfold len in *.
      rewrite length_app in Hmax. lia. }
  apply (while_true_after_head st _ packet rest _ Hbytes Hh); [reflexivity|].
  rewrite (loop_body_head st packet rest _ Hbytes Hh Hlen), Htype, Hp.
  reflexivity.
Qed.

Lemma data_packet_then_rest_witness :
  handle_incoming_bytes 64 (fresh (data_example_declaring_16 ++ pong_bytes))
  = handle_incoming_bytes 64
      (update_input_channels
         (set_incoming_bytes
            (fresh (data_example_declaring_16 ++ pong_bytes)) pong_bytes)
         {| data_packet_header_of :=
              {| const_header := CONST_HEADER; type := "DATA_PACKET";
                 packet_length := 16 |};
            relative_start_timestamp := 0;
            data_blocks :=
              [{| block_id := 5;
                  data := {| Int8 := Some [7]; Int16 := Some [];
                             Int32 := Some []; Int64 := Some [] |} |}] |}).
Proof.
  apply (data_packet_then_rest 64
           (fresh (data_example_declaring_16 ++ pong_bytes))
           data_example_declaring_16 pong_bytes).
  - reflexivity.
  - repeat split.
  - cbn. lia.
Defined.

(** X6: a whole, well-formed STRING packet at the head of the buffer is put
    on the queue when the queue has room, and what follows it in the
    buffer is then handled exactly as a call on those bytes alone would
    handle it. *)
Theorem string_packet_then_rest (MAX_BYTES_PER_READ : Z) (st : State)
  (packet rest : list byte) (p : StringPacket) :
  incoming_bytes st = packet ++ rest ->
  decodes_to packet (DecodedString p) ->
  (List.length (string_packets_queue st) < 10)%nat ->
  len (incoming_bytes st) <= MAX_BYTES_PER_READ ->
  handle_incoming_bytes MAX_BYTES_PER_READ st
  = handle_incoming_bytes MAX_BYTES_PER_READ
      {| incoming_bytes := rest;
         string_packets_queue := string_packets_queue st ++ [p];
         input_channel_updates := input_channel_updates st;
         disconnects := disconnects st |}.
Proof.
  intros Hbytes (Hp & Htype & Hlen) Hroom Hmax.
  pose proof (string_packet_header_parses _ _ Hp) as Hh.
  rewrite !no_overload; trivial.
  2:{ cbn. rewrite Hbytes in Hmax. unfold len in *.
      rewrite length_app in Hmax. lia. }
  apply (while_true_after_head st _ packet rest _ Hbytes Hh); [reflexivity|].
  rewrite (loop_body_head st packet rest _ Hbytes Hh Hlen), Htype, Hp.
  cbn [String.eqb]. unfold queue_put.
  cbn [string_packets_queue set_incoming_bytes incoming_bytes
         input_channel_updates disconnects].
  apply Nat.ltb_lt in Hroom. unfold string_packets_queue_maxsize.
  now rewrite Hroom.
Qed.

Lemma string_packet_then_rest_witness :
  handle_incoming_bytes 64 (fresh (pong_bytes ++ pong_bytes))
  = handle_incoming_bytes 64
      {| incoming_bytes := pong_bytes;
         string_packets_queue :=
           string_packets_queue (fresh (pong_bytes ++ pong_bytes))
           ++ [pong_packet];
         input_channel_updates :=
           input_channel_updates (fresh (pong_bytes ++ pong_bytes));
         disconnects := disconnects (fresh (pong_bytes ++ pong_bytes)) |}.
Proof.
  apply (string_packet_then_rest 64 (fresh (pong_bytes ++ pong_bytes))
           pong_bytes pong_bytes pong_packet).
  - reflexivity.
  - repeat split.
  - cbn. lia.
  - cbn. lia.
Defined.

(** X7: with the queue full, a whole, well-formed STRING packet at the head
    of the buffer has already been taken out of the buffer when the call
    comes to wait in [put]: the queue is as it was and the buffer holds
    only what followed the packet. *)
Theorem string_packet_on_full_queue (MAX_BYTES_PER_READ : Z) (st : State)
  (packet rest : list byte) (p : StringPacket) :
  incoming_bytes st = packet ++ rest ->
  decodes_to packet (DecodedString p) ->
  (10 <= List.length (string_packets_queue st))%nat ->
  handle_incoming_bytes MAX_BYTES_PER_READ st
  = Some (Blocked,
          set_incoming_bytes
            (if MAX_BYTES_PER_READ <? len (incoming_bytes st)
             then disconnect st else st)
            rest).
Proof.
  intros Hbytes (Hp & Htype & Hlen) Hfull.
  pose proof (string_packet_header_parses _ _ Hp) as Hh.
  unfold handle_incoming_bytes, handle_incoming_bytes_fuel.
  cbn [while_true].
  rewrite (loop_body_head _ packet rest (string_packet_header_of p));
    trivial; [|now destruct (_ <? _)].
  rewrite Htype, Hp. cbn [String.eqb]. unfold queue_put.
  apply Nat.ltb_ge in Hfull.
  destruct (_ <? _); cbn [string_packets_queue set_incoming_bytes disconnect];
    unfold string_packets_queue_maxsize; now rewrite Hfull.
Qed.

Lemma string_packet_on_full_queue_witness :
  handle_incoming_bytes 64
    {| incoming_bytes := pong_bytes ++ [xff];
       string_packets_queue := repeat pong_packet 10;
       input_channel_updates := []; disconnects := 0 |}
  = Some (Blocked,
          set_incoming_bytes
            (if 64 <? len (pong_bytes ++ [xff])
             then disconnect
                    {| incoming_bytes := pong_bytes ++ [xff];
                       string_packets_queue := repeat pong_packet 10;
                       input_channel_updates := []; disconnects := 0 |}
             else {| incoming_bytes := pong_bytes ++ [xff];
                     string_packets_queue := repeat pong_packet 10;
                     input_channel_updates := []; disconnects := 0 |})
            [xff]).
Proof.
  apply (string_packet_on_full_queue 64
           {| incoming_bytes := pong_bytes ++ [xff];
              string_packets_queue := repeat pong_packet 10;
              input_channel_updates := []; disconnects := 0 |}
           pong_bytes [xff] pong_packet).
  - reflexivity.
  - repeat split.
  - cbn. lia.
Defined.

(** ** A buffer of whole packets *)

Lemma while_true_whole_packets (packets : list (list byte))
  (ds : list Decoded) :
  Forall2 decodes_to packets ds ->
  forall st : State,
    incoming_bytes st = List.concat packets ->
    (List.length (string_packets_queue st) + List.length (strings_of ds)
     <= 10)%nat ->
    while_true (S (List.length (incoming_bytes st))) st
    = Some (Returned, after_dispatch st ds).
Proof.
  induction 1 as [|packet d packets ds Hd Hrest IH]; intros st Hbytes Hroom.
  - cbn [List.concat] in Hbytes. cbn [while_true]. unfold loop_body.
    rewrite Hbytes. cbn [find find_from startswith CONST_HEADER Z.eqb].
    unfold after_dispatch. cbn [strings_of data_of].
    rewrite !app_nil_r. now destruct st.
  - cbn [List.concat] in Hbytes.
    destruct d as [p|p]; destruct Hd as (Hp & Htype & Hlen).
    + pose proof (data_packet_header_parses _ _ Hp) as Hh.
      rewrite (while_true_after_head st
                 (update_input_channels
                    (set_incoming_bytes st (List.concat packets)) p)
                 packet (List.concat packets) _ Hbytes Hh eq_refl).
      2:{ rewrite (loop_body_head st packet _ _ Hbytes Hh Hlen), Htype, Hp.
          reflexivity. }
      change (List.concat packets)
        with (incoming_bytes
                (update_input_channels
                   (set_incoming_bytes st (List.concat packets)) p)) at 1.
      rewrite IH; [|reflexivity|exact Hroom].
      unfold after_dispatch. cbn. now rewrite <- app_assoc.
    + pose proof (string_packet_header_parses _ _ Hp) as Hh.
      cbn [strings_of List.length] in Hroom.
      set (st1 := {| incoming_bytes := List.concat packets;
                     string_packets_queue := string_packets_queue st ++ [p];
                     input_channel_updates := input_channel_updates st;
                     disconnects := disconnects st |}).
      rewrite (while_true_after_head st st1 packet (List.concat packets) _
                 Hbytes Hh eq_refl).
      2:{ rewrite (loop_body_head st packet _ _ Hbytes Hh Hlen), Htype, Hp.
          cbn [String.eqb]. unfold queue_put.
          cbn [string_packets_queue set_incoming_bytes incoming_bytes
                 input_channel_updates disconnects].
          unfold string_packets_queue_maxsize.
          replace (_ <? 10)%nat with true
            by (symmetry; apply Nat.ltb_lt; lia).
          reflexivity. }
      change (List.concat packets) with (incoming_bytes st1) at 1.
      rewrite IH; [|reflexivity|].
      * unfold after_dispatch, st1. cbn. now rewrite <- app_assoc.
      * unfold st1. cbn [string_packets_queue]. rewrite length_app.
        cbn [List.length]. lia.
Qed.

(** X8: a buffer made of whole, well-formed packets one after the other is
    decoded completely in one call: the data packets reach the controller
    and the string packets reach the queue, each in the order of the
    buffer, behind what was there before; the buffer is left empty.  The
    queue must have room for the string packets. *)
Theorem whole_packets_all_dispatched (MAX_BYTES_PER_READ : Z) (st : State)
  (packets : list (list byte)) (ds : list Decoded) :
  incoming_bytes st = List.concat packets ->
  Forall2 decodes_to packets ds ->
  (List.length (string_packets_queue st) + List.length (strings_of ds)
   <= 10)%nat ->
  len (incoming_bytes st) <= MAX_BYTES_PER_READ ->
  handle_incoming_bytes MAX_BYTES_PER_READ st
  = Some (Returned,
          {| incoming_bytes := [];
             string_packets_queue := string_packets_queue st ++ strings_of ds;
             input_channel_updates := input_channel_updates st ++ data_of ds;
             disconnects := disconnects st |}).
Proof.
  intros Hbytes Hds Hroom Hmax. rewrite no_overload by exact Hmax.
  now apply (while_true_whole_packets packets ds).
Qed.

Lemma whole_packets_all_dispatched_witness :
  handle_incoming_bytes 64
    (fresh (List.concat [pong_bytes; data_example_declaring_16; pong_bytes]))
  = Some (Returned,
          {| incoming_bytes := [];
             string_packets_queue :=
               string_packets_queue
                 (fresh (List.concat [pong_bytes; data_example_declaring_16;
                                 pong_bytes]))
               ++ strings_of
                    [DecodedString pong_packet;
                     DecodedData
                       {| data_packet_header_of :=
                            {| const_header := CONST_HEADER;
                               type := "DATA_PACKET";
                               packet_length := 16 |};
                          relative_start_timestamp := 0;
                          data_blocks :=
                            [{| block_id := 5;
                                data := {| Int8 := Some [7];
                                           Int16 := Some [];
                                           Int32 := Some [];
                                           Int64 := Some [] |} |}] |};
                     DecodedString pong_packet];
             input_channel_updates :=
               input_channel_updates
                 (fresh (List.concat [pong_bytes; data_example_declaring_16;
                                 pong_bytes]))
               ++ data_of
                    [DecodedString pong_packet;
                     DecodedData
                       {| data_packet_header_of :=
                            {| const_header := CONST_HEADER;
                               type := "DATA_PACKET";
                               packet_length := 16 |};
                          relative_start_timestamp := 0;
                          data_blocks :=
                            [{| block_id := 5;
                                data := {| Int8 := Some [7];
                                           Int16 := Some [];
                                           Int32 := Some [];
                                           Int64 := Some [] |} |}] |};
                     DecodedString pong_packet];
             disconnects :=
               disconnects
                 (fresh (List.concat [pong_bytes; data_example_declaring_16;
                                 pong_bytes])) |}).
Proof.
  apply (whole_packets_all_dispatched 64
           (fresh (List.concat [pong_bytes; data_example_declaring_16; pong_bytes]))
           [pong_bytes; data_example_declaring_16; pong_bytes]).
  - reflexivity.
  - repeat constructor.
  - cbn. lia.
  - cbn. lia.
Defined.

(** ** Waiting for more bytes *)

Lemma loop_body_waits (st : State) (h : PacketHeader) :
  find (incoming_bytes st) CONST_HEADER <> -1 ->
  len (del_prefix (incoming_bytes st) (find (incoming_bytes st) CONST_HEADER))
  < packet_header_format_sizeof
  \/ (parse packet_header_format
        (del_prefix (incoming_bytes st)
           (find (incoming_bytes st) CONST_HEADER)) = Ok h
      /\ len (del_prefix (incoming_bytes st)
                (find (incoming_bytes st) CONST_HEADER))
         < find (incoming_bytes st) CONST_HEADER + packet_length h) ->
  loop_body st
  = Exit Returned
      (set_incoming_bytes st
         (del_prefix (incoming_bytes st)
            (find (incoming_bytes st) CONST_HEADER))).
Proof.
  intros Hfound Hwait. unfold loop_body.
  apply Z.eqb_neq in Hfound as ->.
  cbn [incoming_bytes set_incoming_bytes].
  destruct (_ <? packet_header_format_sizeof) eqn:Hshort; [reflexivity|].
  destruct Hwait as [Hlt|[Hh Hlt]].
  - apply Z.ltb_ge in Hshort. lia.
  - rewrite Hh. now apply Z.ltb_lt in Hlt as ->.
Qed.

(** X9: the call returns and keeps the packet for a later call, having
    deleted only the [k] bytes in front of the marker, when the bytes from
    the marker on are fewer than the 7 of a header or fewer than [k] plus
    the length the header declares.  Nothing is dispatched.  With bytes in
    front of the marker ([k > 0]) the packet is thus kept even when all of
    it is in the buffer. *)
Theorem waits_for_more_bytes (MAX_BYTES_PER_READ : Z) (st : State)
  (h : PacketHeader) (k : Z) (kept : list byte) :
  find (incoming_bytes st) CONST_HEADER = k ->
  k <> -1 ->
  kept = del_prefix (incoming_bytes st) k ->
  len kept < 7
  \/ (parse packet_header_format kept = Ok h
      /\ len kept < k + packet_length h) ->
  handle_incoming_bytes MAX_BYTES_PER_READ st
  = Some (Returned,
          set_incoming_bytes
            (if MAX_BYTES_PER_READ <? len (incoming_bytes st)
             then disconnect st else st)
            kept).
Proof.
  intros Hk Hfound -> Hwait. subst k.
  unfold handle_incoming_bytes, handle_incoming_bytes_fuel.
  cbn [while_true].
  destruct (_ <? _);
    (rewrite (loop_body_waits _ h); [reflexivity | exact Hfound | exact Hwait]).
Qed.

Lemma waits_for_more_bytes_witness :
  handle_incoming_bytes 64 (fresh ([xff; xff] ++ pong_bytes))
  = Some (Returned,
          set_incoming_bytes
            (if 64 <? len (incoming_bytes (fresh ([xff; xff] ++ pong_bytes)))
             then disconnect (fresh ([xff; xff] ++ pong_bytes))
             else fresh ([xff; xff] ++ pong_bytes))
            pong_bytes).
Proof.
  apply (waits_for_more_bytes 64 (fresh ([xff; xff] ++ pong_bytes))
           (string_packet_header_of pong_packet) 2 pong_bytes).
  - reflexivity.
  - discriminate.
  - reflexivity.
  - right. split; [reflexivity | cbn; lia].
Defined.

Lemma waits_for_more_bytes_lemma (MAX_BYTES_PER_READ : Z) (st : State)
  (h : PacketHeader) (kept : list byte) :
  incoming_bytes st = kept ->
  startswith kept CONST_HEADER = true ->
  len kept < 7
  \/ (parse packet_header_format kept = Ok h /\ len kept < packet_length h) ->
  handle_incoming_bytes MAX_BYTES_PER_READ st
  = Some (Returned,
          set_incoming_bytes
            (if MAX_BYTES_PER_READ <? len (incoming_bytes st)
             then disconnect st else st)
            kept).
Proof.
  intros Hbytes Hmark Hwait.
  assert (Hfind : find (incoming_bytes st) CONST_HEADER = 0)
    by (rewrite Hbytes; now apply find_at_start).
  assert (Hkept : del_prefix (incoming_bytes st)
                    (find (incoming_bytes st) CONST_HEADER) = kept)
    by (rewrite Hfind; exact Hbytes).
  unfold handle_incoming_bytes, handle_incoming_bytes_fuel.
  cbn [while_true].
  destruct (_ <? _);
    (rewrite (loop_body_waits _ h);
     [ cbn [incoming_bytes disconnect]; now rewrite Hkept
     | cbn [incoming_bytes disconnect]; rewrite Hfind; discriminate
     | cbn [incoming_bytes disconnect]; rewrite Hkept, Hfind; exact Hwait ]).
Qed.

Lemma feed_all_single (MAX_BYTES_PER_READ : Z) (st : State)
  (chunk : list byte) :
  feed_all MAX_BYTES_PER_READ st [chunk] = feed MAX_BYTES_PER_READ st chunk.
Proof.
  cbn [feed_all]. destruct (feed _ st chunk) as [[[| |] st']|]; reflexivity.
Qed.

Lemma feed_all_returned (MAX_BYTES_PER_READ : Z) (st st' : State)
  (chunk : list byte) (chunks : list (list byte)) :
  feed MAX_BYTES_PER_READ st chunk = Some (Returned, st') ->
  feed_all MAX_BYTES_PER_READ st (chunk :: chunks)
  = feed_all MAX_BYTES_PER_READ st' chunks.
Proof. intros H. cbn [feed_all]. now rewrite H. Qed.

(** X10: a packet cut anywhere behind its marker is put together again.
    When the buffer is empty and the first chunk begins with the marker but
    does not hold the whole packet (fewer than 7 bytes, or fewer than the
    header declares), feeding that chunk and then the next does what
    feeding the two as one chunk does. *)
Theorem packet_split_after_marker (MAX_BYTES_PER_READ : Z) (st : State)
  (h : PacketHeader) (c1 c2 : list byte) :
  incoming_bytes st = [] ->
  startswith c1 CONST_HEADER = true ->
  len c1 < 7
  \/ (parse packet_header_format c1 = Ok h /\ len c1 < packet_length h) ->
  len (c1 ++ c2) <= MAX_BYTES_PER_READ ->
  feed_all MAX_BYTES_PER_READ st [c1; c2]
  = feed_all MAX_BYTES_PER_READ st [c1 ++ c2].
Proof.
  intros Hempty Hmark Hwait Hmax.
  assert (Hfirst : feed MAX_BYTES_PER_READ st c1
                   = Some (Returned, set_incoming_bytes st c1)).
  { unfold feed. rewrite Hempty. cbn [app].
    rewrite (waits_for_more_bytes_lemma MAX_BYTES_PER_READ
               (set_incoming_bytes st c1) h c1 eq_refl Hmark Hwait).
    cbn [incoming_bytes set_incoming_bytes].
    replace (_ <? _) with false; [reflexivity|].
    symmetry. apply Z.ltb_ge. unfold len in *. rewrite length_app in Hmax.
    lia. }
  rewrite (feed_all_returned _ _ _ _ _ Hfirst), !feed_all_single.
  unfold feed.
  cbn [incoming_bytes set_incoming_bytes]. now rewrite Hempty.
Qed.

Lemma packet_split_after_marker_witness :
  feed_all 64 (fresh [])
    [[xa5; xa5; xa5; xa5; x01]; [x00; x0b; x50; x4f; x4e; x47]]
  = feed_all 64 (fresh [])
      [[xa5; xa5; xa5; xa5; x01] ++ [x00; x0b; x50; x4f; x4e; x47]].
Proof.
  apply (packet_split_after_marker 64 (fresh [])
           (string_packet_header_of pong_packet)).
  - reflexivity.
  - reflexivity.
  - left. cbn. lia.
  - cbn. lia.
Defined.

(** ** Bytes that start no packet *)

Lemma startswith_short (s sub : list byte) :
  (List.length s < List.length sub)%nat -> startswith s sub = false.
Proof.
  revert s; induction sub as [|x sub IH]; intros [|y s]; cbn; try lia; try easy.
  intros H. rewrite IH by lia. apply andb_false_r.
Qed.

Lemma find_from_miss (i : Z) (s sub : list byte) :
  (forall k, (k <= List.length s)%nat -> startswith (skipn k s) sub = false) ->
  find_from i s sub = -1.
Proof.
  revert i; induction s as [|y s IH]; intros i Hnone; cbn [find_from].
  - pose proof (Hnone O (Nat.le_refl _)) as H0. cbn [skipn] in H0.
    now rewrite H0.
  - pose proof (Hnone O ltac:(cbn; lia)) as H0. cbn [skipn] in H0.
    rewrite H0. apply IH.
    intros k Hk. apply (Hnone (S k)). cbn. lia.
Qed.

Lemma loop_body_no_marker (st : State) :
  (forall k, (k <= List.length (incoming_bytes st))%nat ->
             startswith (skipn k (incoming_bytes st)) CONST_HEADER = false) ->
  loop_body st = Exit Returned (set_incoming_bytes st []).
Proof.
  intros Hnone. unfold loop_body, find.
  now rewrite (find_from_miss 0 _ _ Hnone).
Qed.

(** X11: when the marker occurs nowhere in the buffer, the call deletes the
    whole buffer and returns; nothing is dispatched. *)
Theorem buffer_without_marker_is_deleted (MAX_BYTES_PER_READ : Z)
  (st : State) :
  (forall k, (k <= List.length (incoming_bytes st))%nat ->
             startswith (skipn k (incoming_bytes st)) CONST_HEADER = false) ->
  handle_incoming_bytes MAX_BYTES_PER_READ st
  = Some (Returned,
          set_incoming_bytes
            (if MAX_BYTES_PER_READ <? len (incoming_bytes st)
             then disconnect st else st)
            []).
Proof.
  intros Hnone.
  unfold handle_incoming_bytes, handle_incoming_bytes_fuel.
  cbn [while_true].
  destruct (_ <? _); now rewrite loop_body_no_marker.
Qed.

Lemma buffer_without_marker_is_deleted_witness :
  handle_incoming_bytes 64 (fresh [xff; xa5; xa5])
  = Some (Returned,
          set_incoming_bytes
            (if 64 <? len (incoming_bytes (fresh [xff; xa5; xa5]))
             then disconnect (fresh [xff; xa5; xa5])
             else fresh [xff; xa5; xa5])
            []).
Proof.
  apply (buffer_without_marker_is_deleted 64 (fresh [xff; xa5; xa5])).
  intros [|[|[|[|k]]]] Hk; cbn in *; first [reflexivity | lia].
Defined.

(** X12: a buffer of fewer than four bytes is always deleted whole, also
    when it is the beginning of a marker: a marker that arrives in two
    reads is lost. *)
Theorem short_buffer_is_deleted (MAX_BYTES_PER_READ : Z) (st : State) :
  len (incoming_bytes st) < 4 ->
  handle_incoming_bytes MAX_BYTES_PER_READ st
  = Some (Returned,
          set_incoming_bytes
            (if MAX_BYTES_PER_READ <? len (incoming_bytes st)
             then disconnect st else st)
            []).
Proof.
  intros Hshort.
  unfold handle_incoming_bytes, handle_incoming_bytes_fuel.
  cbn [while_true].
  assert (Hnone : forall k,
             (k <= List.length (incoming_bytes st))%nat ->
             startswith (skipn k (incoming_bytes st)) CONST_HEADER = false).
  { intros k _. apply startswith_short. rewrite length_skipn.
    unfold len in Hshort. cbn. lia. }
  destruct (_ <? _); now rewrite loop_body_no_marker.
Qed.

Lemma short_buffer_is_deleted_witness :
  handle_incoming_bytes 64 (fresh [xa5; xa5; xa5])
  = Some (Returned,
          set_incoming_bytes
            (if 64 <? len (incoming_bytes (fresh [xa5; xa5; xa5]))
             then disconnect (fresh [xa5; xa5; xa5])
             else fresh [xa5; xa5; xa5])
            []).
Proof.
  apply (short_buffer_is_deleted 64 (fresh [xa5; xa5; xa5])).
  cbn. lia.
Defined.

(** ** Packets of a type that has no name *)

Lemma header_unknown_type (b4 b5 b6 : byte) (tl : list byte) :
  byte_val b4 <> 0 -> byte_val b4 <> 1 ->
  parse packet_header_format (CONST_HEADER ++ b4 :: b5 :: b6 :: tl)
  = Raise MappingError.
Proof.
  intros H0 H1. unfold parse, packet_header_format, Const, Enum, bind. cbn.
  destruct (byte_val b4) as [|[q|q|]|q]; try reflexivity; easy.
Qed.

(** X13: a buffer that begins with the marker, holds at least the seven
    bytes of a header and has a type byte other than 0 and 1 makes the call
    raise [MappingError], whatever length the header declares and whatever
    follows: nothing is deleted and nothing is dispatched, so the same
    bytes are met again by the next call. *)
Theorem unknown_type_raises_and_keeps_buffer (MAX_BYTES_PER_READ : Z)
  (st : State) (b4 b5 b6 : byte) (tl : list byte) :
  incoming_bytes st = CONST_HEADER ++ b4 :: b5 :: b6 :: tl ->
  byte_val b4 <> 0 -> byte_val b4 <> 1 ->
  handle_incoming_bytes MAX_BYTES_PER_READ st
  = Some (Raised MappingError,
          if MAX_BYTES_PER_READ <? len (incoming_bytes st)
          then disconnect st else st).
Proof.
  intros Hbytes H0 H1.
  assert (Hbody : forall s, incoming_bytes s = incoming_bytes st ->
                            loop_body s = Exit (Raised MappingError) s).
  { intros s Hs. unfold loop_body. rewrite Hs, Hbytes.
    change (find (CONST_HEADER ++ b4 :: b5 :: b6 :: tl) CONST_HEADER) with 0.
    cbn [Z.eqb incoming_bytes set_incoming_bytes].
    change (del_prefix (CONST_HEADER ++ b4 :: b5 :: b6 :: tl) 0)
      with (CONST_HEADER ++ b4 :: b5 :: b6 :: tl).
    rewrite (header_unknown_type b4 b5 b6 tl H0 H1).
    destruct (_ <? packet_header_format_sizeof) eqn:E.
    { apply Z.ltb_lt in E. unfold len in E. cbn in E. lia. }
    rewrite <- Hbytes, <- Hs. now rewrite set_incoming_bytes_same. }
  unfold handle_incoming_bytes, handle_incoming_bytes_fuel.
  cbn [while_true].
  destruct (_ <? _); now rewrite Hbody.
Qed.

Lemma unknown_type_raises_and_keeps_buffer_witness :
  handle_incoming_bytes 64 (fresh (type_2_packet ++ pong_bytes))
  = Some (Raised MappingError,
          if 64 <? len (incoming_bytes (fresh (type_2_packet ++ pong_bytes)))
          then disconnect (fresh (type_2_packet ++ pong_bytes))
          else fresh (type_2_packet ++ pong_bytes)).
Proof.
  apply (unknown_type_raises_and_keeps_buffer 64
           (fresh (type_2_packet ++ pong_bytes)) x02 x00 x07 pong_bytes).
  - reflexivity.
  - discriminate.
  - discriminate.
Defined.

(** * The packet formats *)

(** ** The header *)

Lemma byte_val_range (b : byte) : 0 <= byte_val b <= 255.
Proof.
  unfold byte_val. pose proof (Byte.to_N_bounded b). lia.
Qed.

Lemma header_parse_shape (b4 b5 b6 : byte) (tl : list byte) :
  parse packet_header_format (CONST_HEADER ++ b4 :: b5 :: b6 :: tl)
  = if byte_val b4 =? 0 then
      Ok {| const_header := CONST_HEADER; type := "DATA_PACKET";
            packet_length := byte_val b5 * 256 + byte_val b6 |}
    else if byte_val b4 =? 1 then
      Ok {| const_header := CONST_HEADER; type := "STRING_PACKET";
            packet_length := byte_val b5 * 256 + byte_val b6 |}
    else Raise MappingError.
Proof.
  unfold parse, packet_header_format, Const, Enum, bind. cbn.
  destruct (byte_val b4) as [|[q|q|]|q]; reflexivity.
Qed.

(** X14: the header format accepts exactly the byte strings that begin
    with the marker A5 A5 A5 A5, go on with a type byte that is 0 or 1 and
    hold two more bytes; the type is named after the type byte and the
    declared length is the two bytes read big-endian.  Nothing else about
    the length is checked. *)
Theorem header_parses_iff (s : list byte) (h : PacketHeader) :
  parse packet_header_format s = Ok h
  <-> exists b4 b5 b6 tl,
        s = CONST_HEADER ++ b4 :: b5 :: b6 :: tl
        /\ const_header h = CONST_HEADER
        /\ ((byte_val b4 = 0 /\ type h = "DATA_PACKET"%string)
            \/ (byte_val b4 = 1 /\ type h = "STRING_PACKET"%string))
        /\ packet_length h = byte_val b5 * 256 + byte_val b6.
Proof.
  split.
  - intros H. destruct (header_parse_inv _ _ H) as (b4 & b5 & b6 & tl & ->).
    exists b4, b5, b6, tl. rewrite header_parse_shape in H.
    destruct (byte_val b4 =? 0) eqn:E0.
    + injection H as <-. apply Z.eqb_eq in E0. cbn.
      split; [reflexivity|]. split; [reflexivity|].
      split; [left; now split | reflexivity].
    + destruct (byte_val b4 =? 1) eqn:E1; [|easy].
      injection H as <-. apply Z.eqb_eq in E1. cbn.
      split; [reflexivity|]. split; [reflexivity|].
      split; [right; now split | reflexivity].
  - intros (b4 & b5 & b6 & tl & -> & Hc & Ht & Hl).
    rewrite header_parse_shape. destruct h as [c t l]. cbn in *. subst c l.
    destruct Ht as [[-> ->]|[-> ->]]; reflexivity.
Qed.

(** X15: the length a header declares is between 0 and 65535; it may be
    smaller than the seven bytes of the header itself. *)
Theorem declared_length_range (s : list byte) (h : PacketHeader) :
  parse packet_header_format s = Ok h ->
  0 <= packet_length h <= 65535.
Proof.
  intros H. destruct (header_parse_inv _ _ H) as (b4 & b5 & b6 & tl & ->).
  rewrite header_parse_shape in H.
  pose proof (byte_val_range b5). pose proof (byte_val_range b6).
  destruct (_ =? 0); [|destruct (_ =? 1); [|easy]];
    injection H as <-; cbn; lia.
Qed.

Lemma declared_length_range_witness :
  0 <= packet_length
         {| const_header := CONST_HEADER; type := "DATA_PACKET";
            packet_length := 0 |} <= 65535.
Proof.
  apply (declared_length_range [xa5; xa5; xa5; xa5; x00; x00; x00]).
  reflexivity.
Defined.

(** ** Data blocks *)

Lemma be_uint_snoc (bs : list byte) (b : byte) :
  be_uint (bs ++ [b]) = be_uint bs * 256 + byte_val b.
Proof. unfold be_uint. now rewrite fold_left_app. Qed.

Lemma be_uint_range (bs : list byte) :
  0 <= be_uint bs < 256 ^ Z.of_nat (List.length bs).
Proof.
  induction bs as [|b bs IH] using rev_ind.
  - cbn. lia.
  - rewrite be_uint_snoc, length_app. cbn [List.length].
    pose proof (byte_val_range b).
    replace (Z.of_nat (List.length bs + 1)) with (Z.of_nat (List.length bs) + 1)
      by lia.
    rewrite Z.pow_add_r by lia. lia.
Qed.

Lemma length_grouped (width : nat) (payload : list byte) :
  List.length (grouped width payload) = (List.length payload / width)%nat.
Proof. unfold grouped. now rewrite length_map, length_seq. Qed.

Lemma grouped_range (width : nat) (payload : list byte) :
  (0 < width)%nat ->
  Forall (fun v => 0 <= v < 256 ^ Z.of_nat width) (grouped width payload).
Proof.
  intros Hpos. unfold grouped. apply Forall_forall. intros v Hv.
  apply in_map_iff in Hv as (i & <- & Hi). apply in_seq in Hi.
  pose proof (be_uint_range (firstn width (skipn (i * width) payload))) as Hr.
  rewrite length_firstn, length_skipn in Hr.
  pose proof (Nat.Div0.mul_div_le (List.length payload) width).
  assert ((i + 1) * width <= List.length payload)%nat by nia.
  replace (Nat.min width (List.length payload - i * width)) with width in Hr
    by nia.
  exact Hr.
Qed.

Lemma Prefixed_short (width : nat) (hi lo : byte) (s : list byte) :
  len s < be_uint [hi; lo] ->
  Prefixed (FormatField 2) (GreedyRange (FormatField width)) (hi :: lo :: s)
  = Raise FieldError.
Proof.
  intros Hshort. unfold Prefixed, bind at 1.
  rewrite FormatField_ok by (cbn; lia). cbn [firstn skipn].
  unfold bind, read_stream.
  replace (_ <? _)%nat with true; [reflexivity|].
  symmetry. apply Nat.ltb_lt. unfold len in Hshort. lia.
Qed.

Lemma data_block_decoded (id hi lo : byte) (payload rest : list byte) :
  be_uint [hi; lo] = len payload ->
  data_packet_data_block_format (id :: hi :: lo :: payload ++ rest)
  = Ok ({| block_id := byte_val id;
           data := {| Int8 := Some (grouped 1 payload);
                      Int16 := Some (grouped 2 payload);
                      Int32 := Some (grouped 4 payload);
                      Int64 := Some (grouped 8 payload) |} |},
        rest).
Proof.
  intros Hlen.
  unfold data_packet_data_block_format, data_union_format.
  unfold Int8ub, Int16ub, Int32ub, Int64ub.
  unfold bind at 1. rewrite FormatField_ok by (cbn; lia).
  cbn [firstn skipn].
  unfold bind, Peek.
  rewrite !Prefixed_grouped by (trivial; lia).
  reflexivity.
Qed.

Lemma data_block_short (id hi lo : byte) (s : list byte) :
  len s < be_uint [hi; lo] ->
  data_packet_data_block_format (id :: hi :: lo :: s) = Raise FieldError.
Proof.
  intros Hshort.
  unfold data_packet_data_block_format, data_union_format.
  unfold Int8ub, Int16ub, Int32ub, Int64ub.
  unfold bind at 1. rewrite FormatField_ok by (cbn; lia).
  cbn [firstn skipn].
  unfold bind, Peek.
  rewrite !Prefixed_short by exact Hshort.
  reflexivity.
Qed.

Lemma data_block_inv (s : list byte) (blk : DataBlock) (rest : list byte) :
  data_packet_data_block_format s = Ok (blk, rest) ->
  exists id hi lo payload,
    s = id :: hi :: lo :: payload ++ rest
    /\ len payload = be_uint [hi; lo]
    /\ blk = {| block_id := byte_val id;
                data := {| Int8 := Some (grouped 1 payload);
                           Int16 := Some (grouped 2 payload);
                           Int32 := Some (grouped 4 payload);
                           Int64 := Some (grouped 8 payload) |} |}.
Proof.
  destruct s as [|id [|hi [|lo s]]]; try easy.
  intros H.
  destruct (Z_lt_le_dec (len s) (be_uint [hi; lo])) as [Hshort|Hlong].
  { now rewrite data_block_short in H. }
  pose proof (be_uint_range [hi; lo]) as [Hnn _].
  set (n := Z.to_nat (be_uint [hi; lo])).
  assert (Hn : len (firstn n s) = be_uint [hi; lo]).
  { unfold len in *. rewrite length_firstn. lia. }
  rewrite <- (firstn_skipn n s) in H.
  rewrite (data_block_decoded id hi lo _ _ (eq_sym Hn)) in H.
  injection H as <- <-.
  exists id, hi, lo, (firstn n s).
  rewrite firstn_skipn. auto.
Qed.

(** X16: the block format accepts a byte string exactly as far as it reads
    an id byte, a two-byte big-endian length and that many bytes of
    payload; what it leaves in the stream starts right behind the payload,
    and the decoded block holds the payload grouped at the four widths. *)
Theorem data_block_consumes_id_length_payload (s : list byte)
  (blk : DataBlock) (rest : list byte) :
  data_packet_data_block_format s = Ok (blk, rest)
  <-> exists id hi lo payload,
        s = id :: hi :: lo :: payload ++ rest
        /\ len payload = be_uint [hi; lo]
        /\ blk = {| block_id := byte_val id;
                    data := {| Int8 := Some (grouped 1 payload);
                               Int16 := Some (grouped 2 payload);
                               Int32 := Some (grouped 4 payload);
                               Int64 := Some (grouped 8 payload) |} |}.
Proof.
  split; [apply data_block_inv|].
  intros (id & hi & lo & payload & -> & Hlen & ->).
  now apply data_block_decoded.
Qed.

(** X17: in a decoded block all four readings are present; the one-byte
    reading has one value per payload byte, the others a half, a quarter
    and an eighth as many (rounded down), and every value fits its width. *)
Theorem data_block_members (s : list byte) (blk : DataBlock)
  (rest : list byte) :
  data_packet_data_block_format s = Ok (blk, rest) ->
  exists v8 v16 v32 v64,
    data blk = {| Int8 := Some v8; Int16 := Some v16;
                  Int32 := Some v32; Int64 := Some v64 |}
    /\ List.length s = (3 + List.length v8 + List.length rest)%nat
    /\ List.length v16 = (List.length v8 / 2)%nat
    /\ List.length v32 = (List.length v8 / 4)%nat
    /\ List.length v64 = (List.length v8 / 8)%nat
    /\ Forall (fun v => 0 <= v < 2 ^ 8) v8
    /\ Forall (fun v => 0 <= v < 2 ^ 16) v16
    /\ Forall (fun v => 0 <= v < 2 ^ 32) v32
    /\ Forall (fun v => 0 <= v < 2 ^ 64) v64.
Proof.
  intros H.
  destruct (data_block_inv _ _ _ H) as (id & hi & lo & payload & -> & _ & ->).
  exists (grouped 1 payload), (grouped 2 payload),
         (grouped 4 payload), (grouped 8 payload).
  rewrite !length_grouped, Nat.div_1_r. cbn [data List.length].
  rewrite length_app.
  repeat split; try lia.
  - apply (grouped_range 1); lia.
  - apply (grouped_range 2); lia.
  - apply (grouped_range 4); lia.
  - apply (grouped_range 8); lia.
Qed.

Lemma data_block_members_witness :
  exists v8 v16 v32 v64,
    data {| block_id := 5; data := two_byte_block_data |}
    = {| Int8 := Some v8; Int16 := Some v16;
         Int32 := Some v32; Int64 := Some v64 |}
    /\ List.length two_byte_block
       = (3 + List.length v8 + List.length (@nil byte))%nat
    /\ List.length v16 = (List.length v8 / 2)%nat
    /\ List.length v32 = (List.length v8 / 4)%nat
    /\ List.length v64 = (List.length v8 / 8)%nat
    /\ Forall (fun v => 0 <= v < 2 ^ 8) v8
    /\ Forall (fun v => 0 <= v < 2 ^ 16) v16
    /\ Forall (fun v => 0 <= v < 2 ^ 32) v32
    /\ Forall (fun v => 0 <= v < 2 ^ 64) v64.
Proof.
  apply (data_block_members two_byte_block
           {| block_id := 5; data := two_byte_block_data |} []).
  reflexivity.
Defined.

(** ** Bytes behind the last block of a data packet *)

Lemma extends_ret {A : Type} (a : A) : extends (ret a).
Proof. intros s a' r extra [= <- <-]. reflexivity. Qed.

Lemma extends_raise {A : Type} (e : Exception) : extends (@raise A e).
Proof. intros s a r extra H. discriminate H. Qed.

Lemma extends_bind {A B : Type} (c : Construct A) (k : A -> Construct B) :
  extends c -> (forall a, extends (k a)) -> extends (bind c k).
Proof.
  intros Hc Hk s b r extra. unfold bind.
  destruct (c s) as [[a s1]|] eqn:E; [|easy].
  intros H. rewrite (Hc _ _ _ extra E). now apply Hk.
Qed.

Lemma extends_read_stream (n : nat) : extends (read_stream n).
Proof.
  intros s a r extra. unfold read_stream.
  destruct (_ <? _)%nat eqn:E; [easy|]. apply Nat.ltb_ge in E.
  intros [= <- <-]. rewrite length_app.
  replace (_ <? _)%nat with false by (symmetry; apply Nat.ltb_ge; lia).
  rewrite firstn_app, skipn_app.
  replace (n - List.length s)%nat with O by lia.
  cbn [firstn skipn]. now rewrite app_nil_r.
Qed.

Lemma extends_FormatField (width : nat) : extends (FormatField width).
Proof.
  apply extends_bind; [apply extends_read_stream | intros; apply extends_ret].
Qed.

Lemma extends_packet_header_format : extends packet_header_format.
Proof.
  unfold packet_header_format, Const, Enum.
  apply extends_bind.
  - apply extends_bind; [apply extends_read_stream|].
    intros bs. destruct (bytes_eqb _ _);
      [apply extends_ret | apply extends_raise].
  - intros c. apply extends_bind.
    + apply extends_bind; [apply extends_FormatField|].
      intros v. destruct (List.find _ _) as [[name z]|];
        [apply extends_ret | apply extends_raise].
    + intros t. apply extends_bind; [apply extends_FormatField|].
      intros l. apply extends_ret.
Qed.

Lemma extends_data_block : extends data_packet_data_block_format.
Proof.
  intros s blk rest extra H.
  destruct (data_block_inv _ _ _ H) as (id & hi & lo & payload & -> & Hlen & ->).
  cbn [app]. rewrite <- app_assoc.
  now apply data_block_decoded.
Qed.

Lemma extends_Array {A : Type} (count : nat) (subcon : Construct A) :
  extends subcon -> extends (Array count subcon).
Proof.
  intros Hsub. induction count as [|count IH]; [apply extends_ret|].
  intros s xs r extra. cbn [Array].
  destruct (subcon s) as [[x s1]|] eqn:E; [|easy].
  rewrite (Hsub _ _ _ extra E).
  apply (extends_bind (Array count subcon) (fun xs => ret (x :: xs)) IH).
  intros; apply extends_ret.
Qed.

Lemma extends_data_packet_format : extends data_packet_format.
Proof.
  unfold data_packet_format.
  apply extends_bind; [apply extends_packet_header_format|]. intros h.
  apply extends_bind; [apply extends_FormatField|]. intros t.
  apply extends_bind; [|intros; apply extends_ret].
  unfold PrefixedArray.
  apply extends_bind; [apply extends_FormatField|]. intros count.
  apply extends_Array, extends_data_block.
Qed.

(** X18: bytes that follow the last block of a data packet are ignored: a
    packet that decodes still decodes, to the same data packet, with any
    bytes appended to it.  The block count alone says where the blocks
    end; the declared length is not compared with what the blocks use. *)
Theorem data_packet_ignores_trailing_bytes (packet extra : list byte)
  (p : DataPacket) :
  parse data_packet_format packet = Ok p ->
  parse data_packet_format (packet ++ extra) = Ok p.
Proof.
  unfold parse.
  destruct (data_packet_format packet) as [[p' r]|] eqn:E; [|easy].
  intros [= <-]. now rewrite (extends_data_packet_format _ _ _ extra E).
Qed.

Lemma data_packet_ignores_trailing_bytes_witness :
  parse data_packet_format (data_example_declaring_16 ++ [xff; xff])
  = Ok {| data_packet_header_of :=
            {| const_header := CONST_HEADER; type := "DATA_PACKET";
               packet_length := 16 |};
          relative_start_timestamp := 0;
          data_blocks :=
            [{| block_id := 5;
                data := {| Int8 := Some [7]; Int16 := Some [];
                           Int32 := Some []; Int64 := Some [] |} |}] |}.
Proof.
  apply (data_packet_ignores_trailing_bytes data_example_declaring_16).
  reflexivity.
Defined.

(** ** The text of a string packet *)

Lemma utf8_decode_ascii (body : list byte) :
  Forall (fun b => byte_val b < 128) body ->
  utf8_decode body = Ok (List.map byte_val body).
Proof.
  induction 1 as [|b body Hb _ IH]; [reflexivity|].
  cbn [utf8_decode List.map].
  apply Z.ltb_lt in Hb. rewrite Hb, IH. reflexivity.
Qed.

(** X19: a STRING packet whose body holds only bytes below 128 decodes to
    the text with exactly those code points, however long the body is and
    whatever length the header declares: the text is all that follows the
    seven header bytes. *)
Theorem string_packet_ascii_text (hi lo : byte) (body : list byte) :
  Forall (fun b => byte_val b < 128) body ->
  parse string_packet_format (CONST_HEADER ++ x01 :: hi :: lo :: body)
  = Ok {| string_packet_header_of :=
            {| const_header := CONST_HEADER; type := "STRING_PACKET";
               packet_length := byte_val hi * 256 + byte_val lo |};
          string_of := List.map byte_val body |}.
Proof.
  intros Hascii.
  unfold parse, string_packet_format, bind at 1.
  pose proof (header_parse_shape x01 hi lo body) as Hh.
  change (byte_val x01 =? 0) with false in Hh.
  change (byte_val x01 =? 1) with true in Hh. cbv iota in Hh.
  unfold parse in Hh.
  destruct (packet_header_format _) as [[h r]|] eqn:E; [|easy].
  injection Hh as ->.
  assert (Hr : r = body).
  { pose proof (extends_packet_header_format
                  (CONST_HEADER ++ [x01; hi; lo]) _ [] body eq_refl) as Hx.
    rewrite <- app_assoc in Hx. cbn [app] in Hx, E.
    rewrite E in Hx. now injection Hx. }
  subst r. unfold bind, GreedyString.
  now rewrite (utf8_decode_ascii body Hascii).
Qed.

Lemma string_packet_ascii_text_witness :
  parse string_packet_format
    (CONST_HEADER ++ x01 :: x00 :: x0b :: [x50; x4f; x4e; x47])
  = Ok {| string_packet_header_of :=
            {| const_header := CONST_HEADER; type := "STRING_PACKET";
               packet_length := byte_val x00 * 256 + byte_val x0b |};
          string_of := List.map byte_val [x50; x4f; x4e; x47] |}.
Proof.
  apply (string_packet_ascii_text x00 x0b [x50; x4f; x4e; x47]).
  repeat constructor.
Defined.

(** * Outgoing commands *)

Lemma string_length_app (a b : string) :
  String.length (a ++ b) = (String.length a + String.length b)%nat.
Proof. induction a as [|x a IH]; cbn; [reflexivity | now rewrite IH]. Qed.

Lemma concat_space_length (x : string) (xs : list string) :
  String.length (String.concat " " (x :: xs))
  = (String.length x
     + list_sum (List.map (fun y => S (String.length y)) xs))%nat.
Proof.
  revert x; induction xs as [|y xs IH]; intros x.
  - cbn. lia.
  - change (String.concat " " (x :: y :: xs))
      with (x ++ " " ++ String.concat " " (y :: xs))%string.
    rewrite !string_length_app, IH.
    cbn [List.map]. unfold list_sum. cbn [fold_right String.length]. lia.
Qed.

(** X20: the packet built for a command is as long as the command name,
    plus one separator and its own printed length for every parameter,
    plus the carriage return: nothing else is added, no padding and no
    quoting. *)
Theorem build_command_packet_length (command : string)
  (parameters : list PyValue) :
  String.length (build_command_packet command parameters)
  = (String.length command
     + list_sum (List.map (fun p => S (String.length (format p))) parameters)
     + 1)%nat.
Proof.
  unfold build_command_packet. cbn [List.map format].
  rewrite string_length_app, concat_space_length, map_map.
  reflexivity.
Qed.

(** X21: parameters are not quoted.  A parameter that contains a space
    gives the very packet that its two halves give as two parameters, so
    the receiver cannot tell them apart. *)
Theorem build_command_packet_space_in_parameter (command a b : string)
  (parameters : list PyValue) :
  build_command_packet command (PyStr (a ++ " " ++ b) :: parameters)
  = build_command_packet command (PyStr a :: PyStr b :: parameters).
Proof.
  unfold build_command_packet. cbn [List.map format String.concat].
  destruct (List.map format parameters) as [|y ys];
    now rewrite !string_app_assoc.
Qed.

(** X22: without a comm port the four channel commands send nothing, change
    nothing and raise nothing, while [ping] raises [AttributeError]; it too
    leaves the queue as it was. *)
Theorem without_comm_port
  (receive : list StringPacket -> list StringPacket) (l : Link)
  (channel : Channel) (is_output : bool) (values : list PyValue) :
  comm_port l = None ->
  register_input_channel l channel = l
  /\ set_channel_direction l channel is_output = l
  /\ write_to_channel l channel values = l
  /\ start_acquiring_data l = l
  /\ ping receive l = (Raise AttributeError, l).
Proof.
  intros Hport.
  unfold register_input_channel, set_channel_direction, write_to_channel,
    start_acquiring_data, ping, transmit.
  now rewrite !Hport.
Qed.

Lemma without_comm_port_witness :
  register_input_channel {| comm_port := None; replies := [pong_packet] |}
    {| get_identifier := PyStr "A0"; sampling_rate_str := "10" |}
  = {| comm_port := None; replies := [pong_packet] |}
  /\ set_channel_direction {| comm_port := None; replies := [pong_packet] |}
       {| get_identifier := PyStr "A0"; sampling_rate_str := "10" |} true
     = {| comm_port := None; replies := [pong_packet] |}
  /\ write_to_channel {| comm_port := None; replies := [pong_packet] |}
       {| get_identifier := PyStr "A0"; sampling_rate_str := "10" |}
       [PyInt 1]
     = {| comm_port := None; replies := [pong_packet] |}
  /\ start_acquiring_data {| comm_port := None; replies := [pong_packet] |}
     = {| comm_port := None; replies := [pong_packet] |}
  /\ ping (fun q => q) {| comm_port := None; replies := [pong_packet] |}
     = (Raise AttributeError,
        {| comm_port := None; replies := [pong_packet] |}).
Proof.
  apply (without_comm_port (fun q => q)
           {| comm_port := None; replies := [pong_packet] |}).
  reflexivity.
Defined.

(** X23: with a comm port each channel command hands it exactly one line
    and leaves the queue alone.  The lines are: CH:REGISTER, the channel's
    identifier and its sampling rate; CH:DIR, the identifier and OUT or
    IN; CH:WRITE, the identifier and the values; ACQUIRE:START alone;
    each with single spaces between the words and a carriage return at
    the end. *)
Theorem command_lines (l : Link) (sent : list string) (channel : Channel)
  (is_output : bool) (values : list PyValue) :
  comm_port l = Some sent ->
  register_input_channel l channel
  = {| comm_port :=
         Some (sent ++ [("CH:REGISTER " ++ format (get_identifier channel)
                        ++ " " ++ sampling_rate_str channel ++ CR)%string]);
       replies := replies l |}
  /\ set_channel_direction l channel is_output
     = {| comm_port :=
            Some (sent ++ [("CH:DIR " ++ format (get_identifier channel)
                           ++ " " ++ (if is_output then "OUT" else "IN")
                           ++ CR)%string]);
          replies := replies l |}
  /\ write_to_channel l channel values
     = {| comm_port :=
            Some (sent ++ [("CH:WRITE "
                           ++ build_command_packet
                                (format (get_identifier channel)) values)%string]);
          replies := replies l |}
  /\ start_acquiring_data l
     = {| comm_port := Some (sent ++ [("ACQUIRE:START" ++ CR)%string]);
          replies := replies l |}.
Proof.
  intros Hport.
  unfold register_input_channel, set_channel_direction, write_to_channel,
    start_acquiring_data, transmit.
  rewrite !Hport. unfold build_command_packet.
  cbn [List.map format String.concat].
  repeat split; do 3 f_equal;
    try (destruct (List.map format values) as [|y ys]);
    cbn; now rewrite ?string_app_assoc.
Qed.

Lemma command_lines_witness :
  register_input_channel {| comm_port := Some []; replies := [] |}
    {| get_identifier := PyStr "A0"; sampling_rate_str := "10" |}
  = {| comm_port :=
         Some ([] ++ [("CH:REGISTER " ++ format (PyStr "A0")
                      ++ " " ++ "10" ++ CR)%string]);
       replies := [] |}
  /\ set_channel_direction {| comm_port := Some []; replies := [] |}
       {| get_identifier := PyStr "A0"; sampling_rate_str := "10" |} true
     = {| comm_port :=
            Some ([] ++ [("CH:DIR " ++ format (PyStr "A0")
                         ++ " " ++ "OUT" ++ CR)%string]);
          replies := [] |}
  /\ write_to_channel {| comm_port := Some []; replies := [] |}
       {| get_identifier := PyStr "A0"; sampling_rate_str := "10" |}
       [PyInt 123]
     = {| comm_port :=
            Some ([] ++ [("CH:WRITE "
                         ++ build_command_packet (format (PyStr "A0"))
                              [PyInt 123])%string]);
          replies := [] |}
  /\ start_acquiring_data {| comm_port := Some []; replies := [] |}
     = {| comm_port := Some ([] ++ [("ACQUIRE:START" ++ CR)%string]);
          replies := [] |}.
Proof.
  apply (command_lines {| comm_port := Some []; replies := [] |} []
           {| get_identifier := PyStr "A0"; sampling_rate_str := "10" |}
           true [PyInt 123]).
  reflexivity.
Defined.

(** * ping and the queue *)

(** X24: [ping] takes the oldest entry of the queue, whatever it answers.
    With a reply other than PONG left on the queue in front of a PONG, and
    nothing new arriving, a first [ping] returns false and a second one
    returns true; each takes one entry and sends one PING line. *)
Theorem ping_takes_oldest_reply (l : Link) (sent : list string)
  (stale pong : StringPacket) (q : list StringPacket) :
  comm_port l = Some sent ->
  replies l = stale :: pong :: q ->
  string_of stale <> STRING_PACKET_TYPE_PONG ->
  string_of pong = STRING_PACKET_TYPE_PONG ->
  ping (fun q => q) l
  = (Ok false,
     {| comm_port := Some (sent ++ [build_command_packet CMD_PING []]);
        replies := pong :: q |})
  /\ ping (fun q => q) (snd (ping (fun q => q) l))
     = (Ok true,
        {| comm_port := Some ((sent ++ [build_command_packet CMD_PING []])
                              ++ [build_command_packet CMD_PING []]);
           replies := q |}).
Proof.
  intros Hport Hq Hstale Hpong.
  assert (Hfirst : ping (fun q => q) l
                   = (Ok false,
                      {| comm_port :=
                           Some (sent ++ [build_command_packet CMD_PING []]);
                         replies := pong :: q |})).
  { unfold ping, transmit. rewrite Hport. cbn [comm_port replies].
    rewrite Hq. cbn [queue_get]. unfold search_string.
    destruct (str_eqb _ _) eqn:E; [|reflexivity].
    now apply str_eqb_eq in E. }
  split; [exact Hfirst|].
  rewrite Hfirst. cbn [snd]. unfold ping, transmit.
  cbn [comm_port replies queue_get]. unfold search_string.
  apply str_eqb_eq in Hpong. now rewrite Hpong.
Qed.

Lemma ping_takes_oldest_reply_witness :
  ping (fun q => q)
    {| comm_port := Some [];
       replies := [{| string_packet_header_of :=
                        string_packet_header_of pong_packet;
                      string_of := str_of_string "PONX" |};
                   pong_packet] |}
  = (Ok false,
     {| comm_port := Some ([] ++ [build_command_packet CMD_PING []]);
        replies := pong_packet :: [] |})
  /\ ping (fun q => q)
       (snd (ping (fun q => q)
               {| comm_port := Some [];
                  replies := [{| string_packet_header_of :=
                                   string_packet_header_of pong_packet;
                                 string_of := str_of_string "PONX" |};
                              pong_packet] |}))
     = (Ok true,
        {| comm_port := Some (([] ++ [build_command_packet CMD_PING []])
                              ++ [build_command_packet CMD_PING []]);
           replies := [] |}).
Proof.
  apply (ping_takes_oldest_reply
           {| comm_port := Some [];
              replies := [{| string_packet_header_of :=
                               string_packet_header_of pong_packet;
                             string_of := str_of_string "PONX" |};
                          pong_packet] |}
           []
           {| string_packet_header_of := string_packet_header_of pong_packet;
              string_of := str_of_string "PONX" |}
           pong_packet []).
  - reflexivity.
  - reflexivity.
  - discriminate.
  - reflexivity.
Defined.

(** ** From the bytes of a reply to the answer of ping *)

Lemma byte_val_inj (a b : byte) : byte_val a = byte_val b -> a = b.
Proof.
  unfold byte_val. intros H. apply N2Z.inj in H.
  pose proof (Byte.of_to_N a) as Ha. rewrite H, Byte.of_to_N in Ha.
  now injection Ha.
Qed.

Lemma map_byte_val_inj (a b : list byte) :
  List.map byte_val a = List.map byte_val b -> a = b.
Proof.
  revert b; induction a as [|x a IH]; intros [|y b]; cbn; try easy.
  intros [= Hxy Hab]. f_equal; [now apply byte_val_inj | now apply IH].
Qed.

Lemma utf8_decode_below_128 (bs : list byte) :
  forall cs, utf8_decode bs = Ok cs ->
             Forall (fun c => c < 128) cs ->
             cs = List.map byte_val bs.
Proof.
  induction bs as [bs IH] using (well_founded_induction
                                   (well_founded_ltof _ (@List.length byte))).
  unfold ltof in IH.
  destruct bs as [|b0 t0]; intros cs Hdec Hlow.
  { now injection Hdec as <-. }
  cbn [utf8_decode] in Hdec.
  destruct (byte_val b0 <? 128) eqn:E0.
  { destruct (utf8_decode t0) as [cs0|] eqn:D0; [|easy].
    injection Hdec as <-. inversion Hlow; subst.
    cbn [List.map]. f_equal. apply IH; [cbn; lia | exact D0 | assumption]. }
  exfalso.
  destruct t0 as [|b1 t1]; [easy|].
  destruct (in_range 194 223 (byte_val b0)) eqn:E2.
  { destruct (continuation (byte_val b1)) eqn:C1; [|easy].
    destruct (utf8_decode t1) as [cs1|]; [|easy].
    injection Hdec as <-. inversion Hlow; subst. utf8_bounds. lia. }
  destruct t1 as [|b2 t2]; [easy|].
  destruct (in_range 224 239 (byte_val b0)) eqn:E3.
  { destruct (second_of_three (byte_val b0) (byte_val b1)
              && continuation (byte_val b2)) eqn:C2; [|easy].
    destruct (utf8_decode t2) as [cs2|]; [|easy].
    injection Hdec as <-. inversion Hlow; subst. utf8_bounds; lia. }
  destruct t2 as [|b3 t3]; [easy|].
  destruct (in_range 240 244 (byte_val b0)
            && second_of_four (byte_val b0) (byte_val b1)
            && continuation (byte_val b2)
            && continuation (byte_val b3)) eqn:C3; [|easy].
  destruct (utf8_decode t3) as [cs3|]; [|easy].
  injection Hdec as <-. inversion Hlow; subst. utf8_bounds; lia.
Qed.

Lemma string_packet_parse_shape (hi lo : byte) (body : list byte) :
  parse string_packet_format (CONST_HEADER ++ x01 :: hi :: lo :: body)
  = match utf8_decode body with
    | Ok text =>
        Ok {| string_packet_header_of :=
                {| const_header := CONST_HEADER; type := "STRING_PACKET";
                   packet_length := byte_val hi * 256 + byte_val lo |};
              string_of := text |}
    | Raise e => Raise e
    end.
Proof.
  unfold parse, string_packet_format, bind at 1.
  pose proof (header_parse_shape x01 hi lo body) as Hh.
  change (byte_val x01 =? 0) with false in Hh.
  change (byte_val x01 =? 1) with true in Hh. cbv iota in Hh.
  unfold parse in Hh.
  destruct (packet_header_format _) as [[h r]|] eqn:E; [|easy].
  injection Hh as ->.
  assert (Hr : r = body).
  { pose proof (extends_packet_header_format
                  (CONST_HEADER ++ [x01; hi; lo]) _ [] body eq_refl) as Hx.
    rewrite <- app_assoc in Hx. cbn [app] in Hx, E.
    rewrite E in Hx. now injection Hx. }
  subst r. unfold bind, GreedyString.
  now destruct (utf8_decode body).
Qed.

Lemma handle_single_string_packet (MAX_BYTES_PER_READ : Z) (hi lo : byte)
  (body : list byte) (o : Outcome) (st' : State) :
  byte_val hi * 256 + byte_val lo = 7 + len body ->
  handle_incoming_bytes MAX_BYTES_PER_READ
    (fresh (CONST_HEADER ++ x01 :: hi :: lo :: body)) = Some (o, st') ->
  string_packets_queue st'
  = match utf8_decode body with
    | Ok text =>
        [{| string_packet_header_of :=
              {| const_header := CONST_HEADER; type := "STRING_PACKET";
                 packet_length := 7 + len body |};
            string_of := text |}]
    | Raise _ => []
    end.
Proof.
  intros Hlen. set (packet := CONST_HEADER ++ x01 :: hi :: lo :: body).
  set (h := {| const_header := CONST_HEADER; type := "STRING_PACKET";
               packet_length := 7 + len body |}).
  assert (Hh : parse packet_header_format packet = Ok h).
  { unfold packet, h. rewrite header_parse_shape, <- Hlen. reflexivity. }
  assert (Hl : packet_length h = len packet).
  { unfold h, packet, len.
    cbn [packet_length CONST_HEADER app List.length]. lia. }
  assert (Hp : parse string_packet_format packet
               = match utf8_decode body with
                 | Ok text => Ok {| string_packet_header_of := h;
                                    string_of := text |}
                 | Raise e => Raise e
                 end).
  { unfold packet, h. rewrite string_packet_parse_shape, <- Hlen.
    reflexivity. }
  assert (Hbody : forall st, incoming_bytes st = packet ->
                    string_packets_queue st = [] ->
                    forall fuel o st',
                      while_true (S (S fuel)) st = Some (o, st') ->
                      string_packets_queue st'
                      = match utf8_decode body with
                        | Ok text => [{| string_packet_header_of := h;
                                         string_of := text |}]
                        | Raise _ => []
                        end).
  { intros st Hbytes Hq fuel o1 st1. cbn [while_true].
    rewrite (loop_body_head st packet [] h); trivial;
      [|now rewrite app_nil_r].
    cbn [type h String.eqb Ascii.eqb Bool.eqb andb]. rewrite Hp.
    destruct (utf8_decode body) as [text|e].
    - unfold queue_put.
      cbn [string_packets_queue set_incoming_bytes]. rewrite Hq.
      cbn [List.length Nat.ltb Nat.leb string_packets_queue_maxsize app].
      unfold loop_body. cbn. now intros [= <- <-].
    - intros [= <- <-]. exact Hq. }
  unfold handle_incoming_bytes, handle_incoming_bytes_fuel.
  change (incoming_bytes (fresh packet)) with packet.
  unfold packet at 2. cbn [List.length CONST_HEADER app].
  destruct (_ <? _); apply Hbody; reflexivity.
Qed.

(** X25: from the wire to the answer.  A buffer that is one whole STRING
    packet (the marker, type 1, the length of the whole packet, the body)
    is decoded, and a [ping] that then waits on the queue returns true
    exactly when the body is the four bytes 50 4F 4E 47.  Any other body,
    also one that is not UTF-8 and makes the decoding raise, gives
    false. *)
Theorem ping_true_iff_body_is_pong (MAX_BYTES_PER_READ : Z) (hi lo : byte)
  (body : list byte) (sent : list string) (o : Outcome) (st' : State) :
  byte_val hi * 256 + byte_val lo = 7 + len body ->
  handle_incoming_bytes MAX_BYTES_PER_READ
    (fresh (CONST_HEADER ++ x01 :: hi :: lo :: body)) = Some (o, st') ->
  fst (ping (fun _ => string_packets_queue st')
         {| comm_port := Some sent; replies := [] |})
  = Ok (if list_eq_dec Byte.byte_eq_dec body [x50; x4f; x4e; x47]
        then true else false).
Proof.
  intros Hlen Hrun.
  rewrite (handle_single_string_packet _ _ _ _ _ _ Hlen Hrun).
  unfold ping, transmit. cbn [comm_port replies].
  destruct (list_eq_dec _ body _) as [->|Hne]; [reflexivity|].
  destruct (utf8_decode body) as [text|e] eqn:D; [|reflexivity].
  cbn [queue_get fst]. unfold search_string. cbn [string_of].
  f_equal. destruct (str_eqb _ _) eqn:E; [|reflexivity].
  apply str_eqb_eq in E. exfalso. apply Hne.
  apply map_byte_val_inj. rewrite <- (utf8_decode_below_128 body text D).
  - exact E.
  - rewrite E. repeat constructor.
Qed.

Lemma ping_true_iff_body_is_pong_witness :
  fst (ping (fun _ => string_packets_queue
                        {| incoming_bytes := [];
                           string_packets_queue := [pong_packet];
                           input_channel_updates := []; disconnects := 0 |})
         {| comm_port := Some []; replies := [] |})
  = Ok (if list_eq_dec Byte.byte_eq_dec [x50; x4f; x4e; x47]
             [x50; x4f; x4e; x47]
        then true else false).
Proof.
  apply (ping_true_iff_body_is_pong 64 x00 x0b [x50; x4f; x4e; x47] []
           Returned).
  - reflexivity.
  - reflexivity.
Defined.
